(** * check-packages: a shallow embedding of [check-packages.js]

    The script audits the packages of an npm project against a watch-list.
    This development embeds its functions and proves the properties that the
    specification states about them.

    Modelling conventions.
    - A JavaScript string is a [string], the bytes of its UTF-8 text; the
      operations used by the script ([trim], [startsWith], [split],
      [lastIndexOf], [substring], [replace], [includes]) are written out
      below.  Separators are single characters, as at every call site of the
      script.
    - [null] / [undefined] is [None]; the truthiness test of JavaScript on a
      string-or-null value is [truthy].
    - The dictionaries of the script ([packages], [projectPackages]) are
      objects created by [{}]: a finite map holds their own properties, a
      read that finds no own property falls back to the members of
      [Object.prototype] ([getProperty]), and a write under the name
      [__proto__] stores nothing ([setProperty]).
    - [console] output, thrown errors and the one file write are effects of a
      small state-and-error monad [Eff].
    - The [semver] package, [fs], [path] and [JSON] are not part of the
      repository: they are record parameters of the functions that call
      them. *)

From Stdlib Require Import ZArith Ascii String List Bool Lia.
From stdpp Require Import base option list gmap strings pretty.

Set Warnings "-register-all".

Local Open Scope string_scope.

(** ** JavaScript strings *)

Module JsString.

(** [String.prototype.trim] removes the characters of the WhiteSpace and
    LineTerminator productions.  Those of one byte: tab, line feed,
    vertical tab, form feed, carriage return and space. *)
Definition is_whitespace (c : ascii) : bool :=
  match c with
  | "009" | "010" | "011" | "012" | "013" | " " => true
  | _ => false
  end%char.

(** The no-break space U+00A0, two bytes in UTF-8. *)
Definition is_whitespace2 (a b : ascii) : bool :=
  Ascii.eqb a "194" && Ascii.eqb b "160".

(** Those of three bytes: U+1680, U+2000 to U+200A, the line and paragraph
    separators U+2028 and U+2029, U+202F, U+205F, U+3000 and the byte order
    mark U+FEFF. *)
Definition is_whitespace3 (a b c : ascii) : bool :=
  (Ascii.eqb a "225" && (Ascii.eqb b "154" && Ascii.eqb c "128"))
  || (Ascii.eqb a "226"
      && (Ascii.eqb b "128"
          && ((128 <=? N_of_ascii c)%N && (N_of_ascii c <=? 138)%N
              || Ascii.eqb c "168" || Ascii.eqb c "169" || Ascii.eqb c "175")))
  || (Ascii.eqb a "226" && (Ascii.eqb b "129" && Ascii.eqb c "159"))
  || (Ascii.eqb a "227" && (Ascii.eqb b "128" && Ascii.eqb c "128"))
  || (Ascii.eqb a "239" && (Ascii.eqb b "187" && Ascii.eqb c "191")).

(** The first byte of a white-space character: a one-byte one, or the
    lead byte of one of two or three bytes. *)
Definition is_lead (c : ascii) : bool :=
  is_whitespace c || Ascii.eqb c "194" || Ascii.eqb c "225"
  || Ascii.eqb c "226" || Ascii.eqb c "227" || Ascii.eqb c "239".

(** The text behind one white-space character at the head of [s]. *)
Definition stripSpace (s : string) : option string :=
  match s with
  | String a s1 =>
      if is_whitespace a then Some s1
      else
        match s1 with
        | String b s2 =>
            if is_whitespace2 a b then Some s2
            else
              match s2 with
              | String c s3 => if is_whitespace3 a b c then Some s3 else None
              | "" => None
              end
        | "" => None
        end
  | "" => None
  end.

Fixpoint trimStart (s : string) : string :=
  match s with
  | String a s1 =>
      if is_whitespace a then trimStart s1
      else
        match s1 with
        | String b s2 =>
            if is_whitespace2 a b then trimStart s2
            else
              match s2 with
              | String c s3 => if is_whitespace3 a b c then trimStart s3 else s
              | "" => s
              end
        | "" => s
        end
  | "" => ""
  end.

(** [s] holds white space only. *)
Definition blank (s : string) : bool :=
  match trimStart s with "" => true | _ => false end.

(** The text up to the first position behind which there is white space
    only. *)
Fixpoint trimEnd (s : string) : string :=
  match s with
  | "" => ""
  | String c s' => if blank (String c s') then "" else String c (trimEnd s')
  end.

Definition trim (s : string) : string := trimEnd (trimStart s).

(** [!s] is false exactly on the non-empty strings. *)
Definition truthy (s : string) : bool :=
  match s with "" => false | _ => true end.

Definition truthy_opt (o : option string) : bool :=
  match o with Some s => truthy s | None => false end.

(** [stripPrefix p s] is the rest of [s] behind [p] when [s] begins with
    [p]. *)
Fixpoint stripPrefix (p s : string) : option string :=
  match p, s with
  | "", _ => Some s
  | String a p', String b s' =>
      if Ascii.eqb a b then stripPrefix p' s' else None
  | String _ _, "" => None
  end.

Definition startsWith (s p : string) : bool :=
  match stripPrefix p s with Some _ => true | None => false end.

(** [s.includes(p)] *)
Fixpoint includes (s p : string) : bool :=
  match stripPrefix p s with
  | Some _ => true
  | None =>
      match s with
      | "" => false
      | String _ s' => includes s' p
      end
  end.

(** [s.replace(p, r)] with a string pattern: the first occurrence only. *)
Fixpoint replace (s p r : string) : string :=
  match stripPrefix p s with
  | Some rest => r +:+ rest
  | None =>
      match s with
      | "" => ""
      | String c s' => String c (replace s' p r)
      end
  end.

(** [s.split(sep)] for a one-character separator. *)
Fixpoint split (sep : ascii) (s : string) : list string :=
  match s with
  | "" => [""]
  | String c s' =>
      if Ascii.eqb c sep then "" :: split sep s'
      else
        match split sep s' with
        | seg :: segs => String c seg :: segs
        | [] => [String c ""]
        end
  end.

(** [s.lastIndexOf(c)], [-1] when [c] does not occur. *)
Fixpoint lastIndexOf (c : ascii) (s : string) : Z :=
  match s with
  | "" => (-1)%Z
  | String a s' =>
      let r := lastIndexOf c s' in
      if (r =? -1)%Z then (if Ascii.eqb a c then 0%Z else (-1)%Z)
      else (1 + r)%Z
  end.

(** [s.substring(start, finish)]: both indices are clamped to the string
    and swapped when out of order; [finish] defaults to the length. *)
Definition substring (s : string) (start : Z) (finish : option Z) : string :=
  let len := Z.of_nat (String.length s) in
  let clamp i := Z.max 0 (Z.min i len) in
  let a := clamp start in
  let b := match finish with Some e => clamp e | None => len end in
  let lo := Z.min a b in
  let hi := Z.max a b in
  String.substring (Z.to_nat lo) (Z.to_nat (hi - lo)) s.

(** [parts.join(sep)] *)
Fixpoint join (sep : string) (parts : list string) : string :=
  match parts with
  | [] => ""
  | [p] => p
  | p :: rest => p +:+ sep +:+ join sep rest
  end.

(** [c] occurs in [s]. *)
Fixpoint occurs (c : ascii) (s : string) : bool :=
  match s with
  | "" => false
  | String a s' => Ascii.eqb a c || occurs c s'
  end.

(** Every character of [s] satisfies [p]. *)
Fixpoint all_chars (p : ascii → bool) (s : string) : bool :=
  match s with
  | "" => true
  | String c s' => p c && all_chars p s'
  end.

End JsString.

Import JsString.

(** ** Values, and objects used as dictionaries *)

(** What a property read of the script can give: a text that the script
    stored, or a member that an object created by [{}] inherits from
    [Object.prototype], a function, or that prototype itself under the name
    [__proto__]. *)
Inductive JsValue :=
| VString (s : string)
| VMember (name : string).

Coercion VString : string >-> JsValue.

(** The string-keyed members of [Object.prototype]. *)
Definition objectPrototype : list string :=
  ["constructor"; "__defineGetter__"; "__defineSetter__"; "hasOwnProperty";
   "__lookupGetter__"; "__lookupSetter__"; "isPrototypeOf";
   "propertyIsEnumerable"; "toString"; "valueOf"; "__proto__";
   "toLocaleString"].

Definition inherited (name : string) : bool :=
  existsb (String.eqb name) objectPrototype.

(** [if (value)]: a function and an object are truthy. *)
Definition truthyValue (value : JsValue) : bool :=
  match value with
  | VString s => truthy s
  | VMember _ => true
  end.

(** The text of a value in a template literal: a built-in function prints
    as Node.js prints its source, [Object.prototype] as an object. *)
Definition toText (value : JsValue) : string :=
  match value with
  | VString s => s
  | VMember name =>
      if String.eqb name "__proto__" then "[object Object]"
      else "function "
           +:+ (if String.eqb name "constructor" then "Object" else name)
           +:+ "() { [native code] }"
  end.

(** [object[name]] on an object created by [{}] whose own properties are
    [packages]: the own property when there is one, the member of
    [Object.prototype] otherwise, [undefined] when there is none. *)
Definition getProperty (packages : gmap string string) (name : string)
    : option JsValue :=
  match packages !! name with
  | Some value => Some (VString value)
  | None => if inherited name then Some (VMember name) else None
  end.

(** [object[name] = value] on such an object, for a text [value].  The name
    [__proto__] is an accessor of [Object.prototype] whose setter ignores a
    value that is no object: nothing is stored.  Under every other name the
    value becomes an own property. *)
Definition setProperty (packages : gmap string string) (name value : string)
    : gmap string string :=
  if String.eqb name "__proto__" then packages
  else <[name := value]> packages.

(** ** Specifier parser ([parsePackageLine], lines 12-43) *)

Record WatchEntry := mkWatchEntry {
  packageName : string;
  version : option string
}.

Definition parsePackageLine (line : string) : option WatchEntry :=
  let line := trim line in
  if negb (truthy line) then None
  else if startsWith line "@" then
    let parts := split "@" line in
    if (length parts =? 2)%nat then
      Some {| packageName := line; version := None |}
    else if (length parts =? 3)%nat then
      let packageName := "@" +:+ nth 1 parts "" in
      let version := nth 2 parts "" in
      Some {| packageName := packageName; version := Some version |}
    else None
  else
    let lastAtIndex := lastIndexOf "@" line in
    if (lastAtIndex =? -1)%Z then
      Some {| packageName := line; version := None |}
    else
      let packageName := substring line 0 (Some lastAtIndex) in
      let version := substring line (lastAtIndex + 1) None in
      Some {| packageName := packageName; version := Some version |}.

(** ** Effects: console, exceptions, the file written *)

Inductive Level := Log | Warn | Error.

Record World := mkWorld {
  console : list (Level * string);     (* lines printed so far, oldest first *)
  written : list (string * string)     (* [fs.writeFileSync] calls: path, text *)
}.

Definition World0 : World := {| console := []; written := [] |}.

(** The world after one more console line. *)
Definition say (w : World) (l : Level) (line : string) : World :=
  {| console := console w ++ [(l, line)]; written := written w |}.

(** The result of a call: a value, or a thrown [Error] with its message. *)
Inductive Result (A : Type) :=
| Ok (a : A)
| Thrown (message : string).
Arguments Ok {A} a.
Arguments Thrown {A} message.

Definition Eff (A : Type) : Type := World → World * Result A.

Definition ret {A} (a : A) : Eff A := λ w, (w, Ok a).

Definition bind {A B} (m : Eff A) (k : A → Eff B) : Eff B :=
  λ w, match m w with
       | (w', Ok a) => k a w'
       | (w', Thrown e) => (w', Thrown e)
       end.

Definition throw {A} (message : string) : Eff A := λ w, (w, Thrown message).

Definition lift {A} (r : Result A) : Eff A := λ w, (w, r).

(** [try { body } catch (error) { handler(error.message) }]: what the body
    printed or wrote before it threw stays. *)
Definition tryCatch {A} (body : Eff A) (handler : string → Eff A) : Eff A :=
  λ w, match body w with
       | (w', Ok a) => (w', Ok a)
       | (w', Thrown e) => handler e w'
       end.

Definition print (l : Level) (line : string) : Eff unit :=
  λ w, (say w l line, Ok tt).

Notation "'let*' x ':=' m 'in' k" := (bind m (λ x, k))
  (at level 10, x pattern, m at level 100, k at level 200).
Notation "m ';;' k" := (bind m (λ _, k))
  (at level 100, k at level 200, right associativity).

(** ** Lockfile graph collector ([collectAllDependencies], lines 50-65) *)

(** A node of the [dependencies] tree of [package-lock.json] (npm v1-v6).
    A mapping is the list of its entries in the order of [Object.entries]. *)
Inductive DepInfo := mkDepInfo {
  dep_version : option string;
  dep_dependencies : option (list (string * DepInfo))
}.

(** An entry of the [packages] table of [package-lock.json] (npm v7+). *)
Record PackageInfo := mkPackageInfo { pkg_version : option string }.

Record PackageLock := mkPackageLock {
  lock_dependencies : option (list (string * DepInfo));
  lock_packages : option (list (string * PackageInfo))
}.

(** The character class of [/^[\^~>=<]+/]. *)
Definition is_range_operator (c : ascii) : bool :=
  match c with
  | "^" | "~" | ">" | "=" | "<" => true
  | _ => false
  end%char.

(** [version.replace(/^[\^~>=<]+/, '')] *)
Fixpoint cleanVersion (version : string) : string :=
  match version with
  | "" => ""
  | String c rest => if is_range_operator c then cleanVersion rest else version
  end.

(** The callback of [Object.entries(dependencies).forEach] (lines 53-64);
    the inner loop is the recursive call of [collectAllDependencies] on
    [info.dependencies]. *)
Fixpoint collectEntry (name : string) (info : DepInfo)
    (packages : gmap string string) : gmap string string :=
  let packages :=
    match dep_version info with
    | Some version =>
        if truthy version then setProperty packages name (cleanVersion version)
        else packages
    | None => packages
    end in
  match dep_dependencies info with
  | Some dependencies =>
      (fix each (entries : list (string * DepInfo)) packages :=
         match entries with
         | [] => packages
         | (n, i) :: rest => each rest (collectEntry n i packages)
         end) dependencies packages
  | None => packages
  end.

Definition collectAllDependencies
    (dependencies : option (list (string * DepInfo)))
    (packages : gmap string string) : gmap string string :=
  match dependencies with
  | None => packages
  | Some entries =>
      fold_left (λ packages '(name, info), collectEntry name info packages)
                entries packages
  end.

(** ** Manifest loader and lockfile reader ([loadProjectPackages], 72-129) *)

(** [package.json] as the script reads it: [packageJson[depType]] is absent
    or a mapping from names to version ranges, in property order. *)
Record PackageJson := mkPackageJson {
  depsOf : string → option (list (string * string))
}.

(** [path], [fs] and [JSON] of Node.js. *)
Record Node := mkNode {
  path_join : string → string → string;
  existsSync : string → bool;
  readFileSync : string → Result string;
  writeFile : string → string → Result unit;        (* fs.writeFileSync *)
  parsePackageJson : string → Result PackageJson;   (* JSON.parse *)
  parsePackageLock : string → Result PackageLock    (* JSON.parse *)
}.

(** [fs.writeFileSync(path, text, 'utf8')]: the file is written, or the call
    throws and there is no file. *)
Definition writeFileSync (node : Node) (path text : string) : Eff unit :=
  λ w, match writeFile node path text with
       | Ok _ =>
           ({| console := console w; written := written w ++ [(path, text)] |},
            Ok tt)
       | Thrown message => (w, Thrown message)
       end.

Definition depTypes : list string :=
  ["dependencies"; "devDependencies"; "peerDependencies"].

(** [Object.assign(packages, source)]: every own property of [source] is
    set on [packages], in property order. *)
Definition Object_assign (packages : gmap string string)
    (source : list (string * string)) : gmap string string :=
  fold_left (λ packages '(name, range), setProperty packages name range)
            source packages.

(** The callback of [Object.entries(packageLock.packages).forEach]
    (lines 104-114). *)
Definition collectPackage (packages : gmap string string)
    (entry : string * PackageInfo) : gmap string string :=
  let '(packagePath, info) := entry in
  if startsWith packagePath "node_modules/" then
    let packageName := replace packagePath "node_modules/" "" in
    match pkg_version info with
    | Some version =>
        if truthy version && negb (includes packageName "/node_modules/") then
          setProperty packages packageName (cleanVersion version)
        else packages
    | None => packages
    end
  else packages.

Definition seedManifest (packageJson : PackageJson)
    (packages : gmap string string) : gmap string string :=
  fold_left (λ packages depType,
               match depsOf packageJson depType with
               | Some deps => Object_assign packages deps
               | None => packages
               end)
            depTypes packages.

Definition readLock (packageLock : PackageLock)
    (packages : gmap string string) : gmap string string :=
  let packages :=
    match lock_dependencies packageLock with
    | Some _ => collectAllDependencies (lock_dependencies packageLock) packages
    | None => packages
    end in
  match lock_packages packageLock with
  | Some entries => fold_left collectPackage entries packages
  | None => packages
  end.

Definition loadProjectPackages (node : Node) (projectPath : string)
    : Eff (gmap string string) :=
  let packageJsonPath := path_join node projectPath "package.json" in
  let packageLockPath := path_join node projectPath "package-lock.json" in
  if negb (existsSync node packageJsonPath) then
    throw ("package.json が見つかりません: " +:+ packageJsonPath)
  else
    tryCatch
      (let packages : gmap string string := ∅ in
       let* text := lift (readFileSync node packageJsonPath) in
       let* packageJson := lift (parsePackageJson node text) in
       let packages := seedManifest packageJson packages in
       let* packages :=
         if existsSync node packageLockPath then
           tryCatch
             (let* text := lift (readFileSync node packageLockPath) in
              let* packageLock := lift (parsePackageLock node text) in
              let packages := readLock packageLock packages in
              print Log "package-lock.json からも依存関係を読み込みました" ;;
              ret packages)
             (λ lockError,
                print Warn ("package-lock.json の読み込みに失敗しました（package.jsonのみ使用）: "
                            +:+ lockError) ;;
                ret packages)
         else
           print Log "package-lock.json が見つかりません（package.jsonのみ使用）" ;;
           ret packages
       in
       ret packages)
      (λ error, throw ("パッケージ情報の読み込みに失敗しました: " +:+ error)).

(** ** Watch-list reader ([loadPackageList], lines 136-153) *)

Definition loadPackageList (node : Node) (listFilePath : string)
    : Eff (list WatchEntry) :=
  if negb (existsSync node listFilePath) then
    throw ("パッケージリストファイルが見つかりません: " +:+ listFilePath)
  else
    let* content := lift (readFileSync node listFilePath) in
    let lines := split "010" content in
    ret (omap parsePackageLine lines).

(** ** Version comparator ([isVersionLowerOrEqual], lines 161-178) *)

(** The two functions of the [semver] package that the script calls.
    [clean] answers [null] ([None]) on a text that is no version; the script
    passes it whatever the property read gave. *)
Record SemverLib := mkSemverLib {
  clean : JsValue → Result (option string);
  lte : string → string → Result bool
}.

Definition isVersionLowerOrEqual (semver : SemverLib)
    (installedVersion : JsValue) (requiredVersion : option string) : Eff bool :=
  match requiredVersion with
  | None => ret false
  | Some required =>
      if negb (truthy required) then ret false
      else
        tryCatch
          (let* cleanInstalledVersion := lift (clean semver installedVersion) in
           let* cleanRequiredVersion := lift (clean semver required) in
           if negb (truthy_opt cleanInstalledVersion)
              || negb (truthy_opt cleanRequiredVersion)
           then ret false
           else lift (lte semver (default "" cleanInstalledVersion)
                                 (default "" cleanRequiredVersion)))
          (λ error,
             print Warn ("バージョン比較エラー: " +:+ toText installedVersion
                         +:+ " vs " +:+ required) ;;
             ret false)
  end.

(** ** Report writer ([writeResultsToCSV], lines 185-200) *)

Module MatchRecord.

Record t := mk {
  packageName : string;
  version : JsValue;
  requiredVersion : option string;
  isLowerOrEqual : bool
}.
End MatchRecord.

Definition csvRow (result : MatchRecord.t) : string :=
  let warning := if MatchRecord.isLowerOrEqual result then "×" else "" in
  MatchRecord.packageName result +:+ ","
    +:+ toText (MatchRecord.version result) +:+ "," +:+ warning.

Definition writeResultsToCSV (node : Node) (results : list MatchRecord.t)
    (outputPath : string) : Eff unit :=
  if (length results =? 0)%nat then
    print Log "検出されたパッケージがありません。"
  else
    let csvLines := "パッケージ名,バージョン,警告" :: map csvRow results in
    writeFileSync node outputPath (join (String "010" "") csvLines) ;;
    print Log ("結果を " +:+ outputPath +:+ " に出力しました。").

(** ** Main ([main], lines 205-262) *)

(** One turn of [packageList.forEach] (lines 235-250): the match records so
    far are threaded through. *)
Definition checkPackage (semver : SemverLib)
    (projectPackages : gmap string string)
    (results : list MatchRecord.t) (listPackage : WatchEntry)
    : Eff (list MatchRecord.t) :=
  let installedVersion := getProperty projectPackages (packageName listPackage) in
  match installedVersion with
  | Some installed =>
      if truthyValue installed then
        let* isLowerOrEqual :=
          isVersionLowerOrEqual semver installed (version listPackage) in
        let results := app results [
          {| MatchRecord.packageName := packageName listPackage;
             MatchRecord.version := installed;
             MatchRecord.requiredVersion := version listPackage;
             MatchRecord.isLowerOrEqual := isLowerOrEqual |} ] in
        print Log ("✓ 検出: " +:+ packageName listPackage +:+ "@"
                   +:+ toText installed
                   +:+ (if isLowerOrEqual then " (警告: バージョンが古い)" else "")) ;;
        ret results
      else ret results
  | None => ret results
  end.

Fixpoint checkPackages (semver : SemverLib)
    (projectPackages : gmap string string)
    (packageList : list WatchEntry) (results : list MatchRecord.t)
    : Eff (list MatchRecord.t) :=
  match packageList with
  | [] => ret results
  | listPackage :: rest =>
      let* results := checkPackage semver projectPackages results listPackage in
      checkPackages semver projectPackages rest results
  end.

Definition audit (semver : SemverLib) (node : Node)
    (listFilePath projectPath outputPath : string) : Eff unit :=
  print Log ("パッケージリスト: " +:+ listFilePath) ;;
  print Log ("プロジェクトパス: " +:+ projectPath) ;;
  print Log ("出力ファイル: " +:+ outputPath) ;;
  print Log "" ;;
  let* packageList := loadPackageList node listFilePath in
  print Log ("パッケージリスト読み込み完了: " +:+ pretty (length packageList)
             +:+ "個のパッケージ") ;;
  let* projectPackages := loadProjectPackages node projectPath in
  print Log ("プロジェクトパッケージ読み込み完了: "
             +:+ pretty (size projectPackages) +:+ "個のパッケージ") ;;
  let* results := checkPackages semver projectPackages packageList [] in
  writeResultsToCSV node results outputPath ;;
  print Log "" ;;
  print Log ("処理完了: " +:+ pretty (length results)
             +:+ "個のパッケージが検出されました。").

(** [main] with [args = process.argv.slice(2)]; the answer is the console
    and file effects together with the exit status of the process. *)
Definition main (semver : SemverLib) (node : Node) (args : list string)
    (w : World) : World * Z :=
  if (length args <? 2)%nat then
    (fst ((print Error "使用方法: node check-packages.js <パッケージリストファイル> <プロジェクトパス> [出力ファイル]" ;;
           print Error "例: node check-packages.js packages.txt ./my-project output.csv") w),
     1%Z)
  else
    let listFilePath := nth 0 args "" in
    let projectPath := nth 1 args "" in
    let outputPath :=
      match args !! 2%nat with
      | Some path => if truthy path then path else "result.csv"
      | None => "result.csv"
      end in
    match audit semver node listFilePath projectPath outputPath w with
    | (w', Ok _) => (w', 0%Z)
    | (w', Thrown message) =>
        (fst (print Error ("エラー: " +:+ message) w'), 1%Z)
    end.

(** ** The semantic-version rules

    The script calls [semver.clean] and [semver.lte] of the npm package
    [semver], whose code is not in the repository.  The comparator above
    takes them as the record [SemverLib]; this module gives the instance
    that the specification describes: texts are cleaned of decoration and
    must be valid semantic versions, and versions are ordered by major,
    minor, patch and pre-release precedence. *)

Module Semver.

(** A pre-release identifier: numeric, or with letters and hyphens. *)
Inductive Identifier :=
| Numeric (n : N)
| Alphanumeric (s : string).

(** Build metadata takes no part in precedence and is not kept. *)
Record Version := mkVersion {
  major : N;
  minor : N;
  patch : N;
  prerelease : list Identifier
}.

Definition is_digit (c : ascii) : bool :=
  (48 <=? N_of_ascii c)%N && (N_of_ascii c <=? 57)%N.

Definition is_letter (c : ascii) : bool :=
  ((65 <=? N_of_ascii c)%N && (N_of_ascii c <=? 90)%N)
  || ((97 <=? N_of_ascii c)%N && (N_of_ascii c <=? 122)%N).

(** [0-9A-Za-z-] *)
Definition is_identifier_char (c : ascii) : bool :=
  is_digit c || is_letter c || Ascii.eqb c "-".

Fixpoint digits_value (acc : N) (s : string) : N :=
  match s with
  | "" => acc
  | String c s' => digits_value (10 * acc + (N_of_ascii c - 48))%N s'
  end.

(** [0|[1-9]\d*] *)
Definition parseNumeric (s : string) : option N :=
  match s with
  | "" => None
  | String "0" "" => Some 0%N
  | String "0" _ => None
  | _ => if all_chars is_digit s then Some (digits_value 0 s) else None
  end.

Definition parseIdentifier (s : string) : option Identifier :=
  match s with
  | "" => None
  | _ =>
      if all_chars is_digit s then Numeric <$> parseNumeric s
      else if all_chars is_identifier_char s then Some (Alphanumeric s)
      else None
  end.

Definition validBuildIdentifier (s : string) : bool :=
  truthy s && all_chars is_identifier_char s.

(** [cut c s]: the text before the first [c], and the text behind it when
    [c] occurs. *)
Fixpoint cut (c : ascii) (s : string) : string * option string :=
  match s with
  | "" => ("", None)
  | String a s' =>
      if Ascii.eqb a c then ("", Some s')
      else let '(before, behind) := cut c s' in (String a before, behind)
  end.

(** Modelled from the spec: the parser of the semver package is missing;
    a valid semantic version is [major.minor.patch], then [-prerelease]
    and [+build] when present, as in the semantic versioning
    specification that section 4.4 names. *)
Definition parse (s : string) : option Version :=
  let '(versionCore, build) := cut "+" s in
  let '(core, pre) := cut "-" versionCore in
  if match build with
     | Some b => forallb validBuildIdentifier (split "." b)
     | None => true
     end
  then
    match split "." core with
    | [a; b; c] =>
        M ← parseNumeric a;
        m ← parseNumeric b;
        p ← parseNumeric c;
        ids ← match pre with
              | Some text => mapM parseIdentifier (split "." text)
              | None => Some []
              end;
        Some {| major := M; minor := m; patch := p; prerelease := ids |}
    | _ => None
    end
  else None.

(** *** Comparison, by the steps of the package: the main version first,
    then the pre-release identifiers; the answers are [-1], [0], [1]. *)

Definition orElse (a b : Z) : Z := if (a =? 0)%Z then b else a.

Definition compareNumbers (a b : N) : Z :=
  match (a ?= b)%N with Lt => (-1)%Z | Eq => 0%Z | Gt => 1%Z end.

Definition compareIdentifiers (a b : Identifier) : Z :=
  match a, b with
  | Numeric x, Numeric y => compareNumbers x y
  | Numeric _, Alphanumeric _ => (-1)%Z
  | Alphanumeric _, Numeric _ => 1%Z
  | Alphanumeric x, Alphanumeric y =>
      match String.compare x y with Lt => (-1)%Z | Eq => 0%Z | Gt => 1%Z end
  end.

Definition compareMain (a b : Version) : Z :=
  orElse (compareNumbers (major a) (major b))
    (orElse (compareNumbers (minor a) (minor b))
            (compareNumbers (patch a) (patch b))).

Fixpoint compareFields (a b : list Identifier) : Z :=
  match a, b with
  | [], [] => 0%Z
  | _ :: _, [] => 1%Z
  | [], _ :: _ => (-1)%Z
  | x :: a', y :: b' => orElse (compareIdentifiers x y) (compareFields a' b')
  end.

Definition comparePre (a b : Version) : Z :=
  match prerelease a, prerelease b with
  | _ :: _, [] => (-1)%Z
  | [], _ :: _ => 1%Z
  | [], [] => 0%Z
  | _, _ => compareFields (prerelease a) (prerelease b)
  end.

(** Modelled from the spec: the comparison of the semver package is
    missing; section 4.4 orders by major, then minor, then patch, then
    pre-release precedence. *)
Definition compare (a b : Version) : Z :=
  orElse (compareMain a b) (comparePre a b).

(** *** Precedence, by the words of the semantic versioning specification
    (item 11) *)

(** ASCII sort order of two identifiers with letters or hyphens. *)
Inductive lexLt : string → string → Prop :=
| lexLt_nil c s : lexLt "" (String c s)
| lexLt_head a b s t : (N_of_ascii a < N_of_ascii b)%N →
                       lexLt (String a s) (String b t)
| lexLt_tail a s t : lexLt s t → lexLt (String a s) (String a t).

(** Numeric identifiers are compared as numbers, the others in ASCII
    order; a numeric identifier is lower than one with letters. *)
Inductive identifierLt : Identifier → Identifier → Prop :=
| idLt_numeric x y : (x < y)%N → identifierLt (Numeric x) (Numeric y)
| idLt_lexical x y : lexLt x y →
                     identifierLt (Alphanumeric x) (Alphanumeric y)
| idLt_mixed x y : identifierLt (Numeric x) (Alphanumeric y).

(** Identifiers are compared from left to right until a difference is
    found; a larger set of fields is higher when all preceding ones are
    equal. *)
Inductive fieldsLt : list Identifier → list Identifier → Prop :=
| fieldsLt_shorter y b : fieldsLt [] (y :: b)
| fieldsLt_here x y a b : identifierLt x y → fieldsLt (x :: a) (y :: b)
| fieldsLt_next x a b : fieldsLt a b → fieldsLt (x :: a) (x :: b).

(** Major, then minor, then patch; then a pre-release version is lower
    than the release; then the pre-release identifiers. *)
Inductive precedes : Version → Version → Prop :=
| precedes_major a b : (major a < major b)%N → precedes a b
| precedes_minor a b : major a = major b → (minor a < minor b)%N →
                       precedes a b
| precedes_patch a b : major a = major b → minor a = minor b →
                       (patch a < patch b)%N → precedes a b
| precedes_release a b : major a = major b → minor a = minor b →
                         patch a = patch b →
                         prerelease a ≠ [] → prerelease b = [] →
                         precedes a b
| precedes_pre a b : major a = major b → minor a = minor b →
                     patch a = patch b →
                     prerelease a ≠ [] → prerelease b ≠ [] →
                     fieldsLt (prerelease a) (prerelease b) →
                     precedes a b.

(** [a <= b]: [a] has lower precedence than [b], or the same. *)
Definition le (a b : Version) : Prop := precedes a b ∨ a = b.

(** *** The package *)

Section Package.

(** The leading characters that cleaning drops as decoration, besides
    the surrounding white space.  Section 4.4 speaks of a leading
    version-range operator and any other decoration that the cleaning
    rule recognises; which characters these are is left open here. *)
Variable decoration : ascii → bool.

Fixpoint undecorate (s : string) : string :=
  match s with
  | "" => ""
  | String c rest => if decoration c then undecorate rest else s
  end.

Definition normalize (s : string) : string := undecorate (trim s).

(** Modelled from the spec: [semver.clean] is missing; the text is
    normalized by stripping the leading decoration, and the answer is
    null when the normalized text is no valid semantic version. *)
Definition clean (s : string) : Result (option string) :=
  let text := normalize s in
  match parse text with
  | Some _ => Ok (Some text)
  | None => Ok None
  end.

(** Modelled from the spec: [semver.lte] is missing; it answers whether
    the first version is lower than or equal to the second in
    precedence, and throws on a text that is no version. *)
Definition lte (a b : string) : Result bool :=
  match parse a, parse b with
  | Some va, Some vb => Ok (compare va vb <=? 0)%Z
  | None, _ => Thrown ("Invalid Version: " +:+ a)
  | _, None => Thrown ("Invalid Version: " +:+ b)
  end.

(** Modelled from the spec: [semver.clean] is missing, and section 4.4
    cleans texts.  The script hands it whatever the property read gave; a
    value that is no text has nothing to clean, and the call throws, as a
    call of [trim] on a function does. *)
Definition cleanValue (value : JsValue) : Result (option string) :=
  match value with
  | VString s => clean s
  | VMember _ => Thrown "version.trim is not a function"
  end.

Definition package : SemverLib := mkSemverLib cleanValue lte.

End Package.

End Semver.

(** ** What the collectors write, as lists of records

    These definitions do not come from the script: they describe, in the
    words of the specification, the records that a walk produces and the
    order in which it produces them.  The theorems below compare the
    functions of the script with them. *)

(** What one entry contributes: its own record when it carries a
    non-empty version, then the records of its nested dependencies, entry
    by entry, depth first. *)
Fixpoint visitEntry (name : string) (info : DepInfo) : list (string * string) :=
  app
    match dep_version info with
    | Some version => if truthy version then [(name, cleanVersion version)] else []
    | None => []
    end
    match dep_dependencies info with
    | Some dependencies => flat_map (λ '(n, i), visitEntry n i) dependencies
    | None => []
    end.

Definition visit (dependencies : list (string * DepInfo)) : list (string * string) :=
  flat_map (λ '(n, i), visitEntry n i) dependencies.

(** The record of an entry of the flat [packages] table: one for an
    entry directly under [node_modules/], none for the others. *)
Definition topLevel (entry : string * PackageInfo) : list (string * string) :=
  let '(packagePath, info) := entry in
  match stripPrefix "node_modules/" packagePath, pkg_version info with
  | Some remainder, Some version =>
      if truthy version && negb (includes remainder "/node_modules/")
      then [(remainder, cleanVersion version)] else []
  | _, _ => []
  end.

(** Everything that the lockfile contributes, in the order of writing. *)
Definition lockEntries (packageLock : PackageLock) : list (string * string) :=
  app
    match lock_dependencies packageLock with
    | Some dependencies => visit dependencies
    | None => []
    end
    match lock_packages packageLock with
    | Some entries => flat_map topLevel entries
    | None => []
    end.

(** Everything that the manifest declares, in the order of writing. *)
Definition manifestEntries (packageJson : PackageJson) : list (string * string) :=
  flat_map (λ depType, default [] (depsOf packageJson depType)) depTypes.

(** The step of the callback on the entry itself (lines 54-58). *)
Definition recordVersion (name : string) (info : DepInfo)
    (packages : gmap string string) : gmap string string :=
  match dep_version info with
  | Some version =>
      if truthy version then setProperty packages name (cleanVersion version)
      else packages
  | None => packages
  end.

(** The line of [console.warn] in the comparator (line 175), and the world
    after it. *)
Definition comparisonWarning (installed : JsValue) (required : string)
    : Level * string :=
  (Warn, "バージョン比較エラー: " +:+ toText installed +:+ " vs " +:+ required).

Definition warned (w : World) (installed : JsValue) (required : string) : World :=
  {| console := console w ++ [comparisonWarning installed required];
     written := written w |}.

(** Induction over a node of the lockfile tree and the nodes below it. *)
Section DepInfoInduction.

Variable P : DepInfo → Prop.
Hypothesis step : ∀ version dependencies,
  match dependencies with
  | Some entries => Forall (λ e, P e.2) entries
  | None => True
  end →
  P (mkDepInfo version dependencies).

Fixpoint DepInfo_nested_ind (info : DepInfo) : P info :=
  match info with
  | mkDepInfo version dependencies =>
      step version dependencies
        match dependencies as d
              return match d with
                     | Some entries => Forall (λ e, P e.2) entries
                     | None => True
                     end
        with
        | None => I
        | Some l =>
            (fix all (l : list (string * DepInfo)) : Forall (λ e, P e.2) l :=
               match l with
               | [] => @List.Forall_nil _ _
               | e :: rest =>
                   @List.Forall_cons _ _ e rest (DepInfo_nested_ind e.2)
                                     (all rest)
               end) l
        end
  end.

End DepInfoInduction.

(** ** Notions used by the further properties *)

(** The number of occurrences of [c] in [s]. *)
Fixpoint countChar (c : ascii) (s : string) : nat :=
  match s with
  | "" => 0
  | String a s' => (if Ascii.eqb a c then 1 else 0) + countChar c s'
  end.

(** The characters of the WhiteSpace and LineTerminator productions of
    ECMAScript, each as its UTF-8 text: U+0009 to U+000D, U+0020, U+00A0,
    U+1680, U+2000 to U+200A, U+2028, U+2029, U+202F, U+205F, U+3000 and
    U+FEFF. *)
Definition utf8_2 (a b : ascii) : string := String a (String b "").
Definition utf8_3 (a b c : ascii) : string := String a (String b (String c "")).

Definition whiteSpaces : list string :=
  [String "009" ""; String "010" ""; String "011" ""; String "012" "";
   String "013" ""; String "032" "";
   utf8_2 "194" "160";
   utf8_3 "225" "154" "128";
   utf8_3 "226" "128" "128"; utf8_3 "226" "128" "129"; utf8_3 "226" "128" "130";
   utf8_3 "226" "128" "131"; utf8_3 "226" "128" "132"; utf8_3 "226" "128" "133";
   utf8_3 "226" "128" "134"; utf8_3 "226" "128" "135"; utf8_3 "226" "128" "136";
   utf8_3 "226" "128" "137"; utf8_3 "226" "128" "138";
   utf8_3 "226" "128" "168"; utf8_3 "226" "128" "169"; utf8_3 "226" "128" "175";
   utf8_3 "226" "129" "159";
   utf8_3 "227" "128" "128";
   utf8_3 "239" "187" "191"].

(** The entries of a watch-list text (lines 142-150). *)
Definition entriesOf (content : string) : list WatchEntry :=
  omap parsePackageLine (split "010" content).

(** What the join finds for a watch entry (lines 236-238): the text stored
    under its name when that text is not empty; without a stored text, the
    member of [Object.prototype] of that name when there is one. *)
Definition found (projectPackages : gmap string string)
    (listPackage : WatchEntry) : option JsValue :=
  match projectPackages !! packageName listPackage with
  | Some installed => if truthy installed then Some (VString installed) else None
  | None =>
      if decide (packageName listPackage ∈ objectPrototype)
      then Some (VMember (packageName listPackage)) else None
  end.

(** The range that a mapping of names to ranges declares for a name: the
    last one, when the name occurs more than once. *)
Fixpoint declaredIn (entries : list (string * string)) (name : string)
    : option string :=
  match entries with
  | [] => None
  | (n, range) :: rest =>
      match declaredIn rest name with
      | Some later => Some later
      | None => if String.eqb n name then Some range else None
      end
  end.

(** The range that the manifest declares for a name: that of
    [peerDependencies] when the name is declared there, else that of
    [devDependencies], else that of [dependencies]. *)
Definition declared (packageJson : PackageJson) (name : string)
    : option string :=
  match declaredIn (default [] (depsOf packageJson "peerDependencies")) name with
  | Some range => Some range
  | None =>
      match declaredIn (default [] (depsOf packageJson "devDependencies")) name with
      | Some range => Some range
      | None => declaredIn (default [] (depsOf packageJson "dependencies")) name
      end
  end.

(** The output path that [main] chooses (line 216). *)
Definition outputPathOf (args : list string) : string :=
  match args !! 2%nat with
  | Some path => if truthy path then path else "result.csv"
  | None => "result.csv"
  end.

(** The world after the first four lines of a run (lines 219-222). *)
Definition banner (w : World) (listFilePath projectPath outputPath : string)
    : World :=
  say (say (say (say w Log ("パッケージリスト: " +:+ listFilePath))
                Log ("プロジェクトパス: " +:+ projectPath))
           Log ("出力ファイル: " +:+ outputPath))
      Log "".

(** The records of one category of the manifest, written on an empty
    map. *)
Definition category (packageJson : PackageJson) (depType : string)
    : gmap string string :=
  Object_assign ∅ (default [] (depsOf packageJson depType)).

(** What a match record says besides its warning flag. *)
Definition recordKey (result : MatchRecord.t)
    : string * JsValue * option string :=
  (MatchRecord.packageName result, MatchRecord.version result,
   MatchRecord.requiredVersion result).

(** The records of the two schemas of a lockfile, each written on an empty
    map. *)
Definition nestedTree (packageLock : PackageLock) : gmap string string :=
  Object_assign ∅ (default [] (visit <$> lock_dependencies packageLock)).

Definition flatTable (packageLock : PackageLock) : gmap string string :=
  Object_assign ∅ (flat_map topLevel (default [] (lock_packages packageLock))).

(** An entry of a [dependencies] tree at any depth. *)
Inductive reaches : list (string * DepInfo) → string → DepInfo → Prop :=
| reaches_here dependencies name info :
    (name, info) ∈ dependencies → reaches dependencies name info
| reaches_below dependencies parent parentInfo nested name info :
    (parent, parentInfo) ∈ dependencies →
    dep_dependencies parentInfo = Some nested →
    reaches nested name info →
    reaches dependencies name info.

(** ** A sample project *)

(** A small project for the examples: a manifest, a lockfile with a flat
    table, and a watch-list. *)
Definition samplePackageJson : PackageJson :=
  {| depsOf := λ depType,
       if String.eqb depType "dependencies"
       then Some [("lodash", "4.17.20"); ("react", "18.2.0")]
       else None |}.

Definition samplePackageLock : PackageLock :=
  {| lock_dependencies := None;
     lock_packages :=
       Some [("", mkPackageInfo None);
             ("node_modules/lodash", mkPackageInfo (Some "4.17.21"));
             ("node_modules/react/node_modules/lodash", mkPackageInfo (Some "3.0.0"))] |}.

Definition sampleNode (watchList : string) (haveManifest haveLock : bool) : Node :=
  {| path_join := λ directory file, directory +:+ "/" +:+ file;
     existsSync := λ path,
       if String.eqb path "proj/package.json" then haveManifest
       else if String.eqb path "proj/package-lock.json" then haveLock
       else String.eqb path "packages.txt";
     readFileSync := λ path,
       if String.eqb path "packages.txt" then Ok watchList else Ok path;
     writeFile := λ _ _, Ok tt;
     parsePackageJson := λ _, Ok samplePackageJson;
     parsePackageLock := λ _, Ok samplePackageLock |}.

(** The sample project with files that are there but may fail to parse. *)
Definition sampleNodeWith (manifest : Result PackageJson)
    (lock : Result PackageLock) : Node :=
  {| path_join := λ directory file, directory +:+ "/" +:+ file;
     existsSync := λ _, true;
     readFileSync := λ path, Ok path;
     writeFile := λ _ _, Ok tt;
     parsePackageJson := λ _, manifest;
     parsePackageLock := λ _, lock |}.

(** The sample project on a disk that refuses every write. *)
Definition sampleNodeReadOnly (watchList : string) : Node :=
  {| path_join := λ directory file, directory +:+ "/" +:+ file;
     existsSync := λ path,
       if String.eqb path "proj/package.json" then true
       else if String.eqb path "proj/package-lock.json" then false
       else String.eqb path "packages.txt";
     readFileSync := λ path,
       if String.eqb path "packages.txt" then Ok watchList else Ok path;
     writeFile := λ path _,
       Thrown ("EACCES: permission denied, open '" +:+ path +:+ "'");
     parsePackageJson := λ _, Ok samplePackageJson;
     parsePackageLock := λ _, Ok samplePackageLock |}.

(** * Properties *)

(** ** Strings *)

Section StringFacts.

Lemma append_nil (t : string) : "" +:+ t = t.
Proof. reflexivity. Qed.

Lemma append_cons (a : ascii) (s t : string) :
  String a s +:+ t = String a (s +:+ t).
Proof. reflexivity. Qed.

Lemma truthy_true (s : string) : truthy s = true ↔ s ≠ "".
Proof. destruct s; simpl; split; congruence. Qed.

Lemma startsWith_at (s : string) :
  startsWith s "@" = true ↔ ∃ rest, s = String "@" rest.
Proof.
  unfold startsWith. destruct s as [|a s]; cbn [stripPrefix].
  - split; [discriminate | intros [rest H]; discriminate].
  - destruct (Ascii.eqb_spec "@" a) as [<- | Hne].
    + split; eauto.
    + split; [discriminate | intros [rest H]; congruence].
Qed.

Lemma split_absent (c : ascii) (s : string) :
  occurs c s = false → split c s = [s].
Proof.
  induction s as [|a s IH]; simpl; [reflexivity|].
  intros [Ha Hs]%orb_false_iff. rewrite Ha, (IH Hs). reflexivity.
Qed.

Lemma split_app (c : ascii) (p q : string) :
  occurs c p = false → split c (p +:+ String c q) = p :: split c q.
Proof.
  induction p as [|a p IH]; simpl; intros H.
  - rewrite ?append_nil. simpl. rewrite Ascii.eqb_refl. reflexivity.
  - apply orb_false_iff in H as [Ha Hp].
    rewrite ?append_cons. simpl. rewrite Ha, (IH Hp). reflexivity.
Qed.

Lemma lastIndexOf_bounds (c : ascii) (s : string) :
  (-1 ≤ lastIndexOf c s < Z.of_nat (String.length s))%Z.
Proof.
  induction s as [|a s IH]; simpl; [lia|].
  destruct (Z.eqb_spec (lastIndexOf c s) (-1)); [destruct (Ascii.eqb a c)|]; lia.
Qed.

Lemma lastIndexOf_absent (c : ascii) (s : string) :
  occurs c s = false ↔ lastIndexOf c s = (-1)%Z.
Proof.
  induction s as [|a s IH]; simpl; [tauto|].
  pose proof (lastIndexOf_bounds c s) as Hb.
  destruct (Z.eqb_spec (lastIndexOf c s) (-1)) as [He | Hne].
  - destruct (Ascii.eqb a c); simpl; [split; [discriminate | lia]|].
    split; [reflexivity | intros _; apply IH, He].
  - rewrite orb_false_iff, IH. split; [tauto | lia].
Qed.

Lemma lastIndexOf_app (c : ascii) (p q : string) :
  occurs c q = false →
  lastIndexOf c (p +:+ String c q) = Z.of_nat (String.length p).
Proof.
  intros Hq. induction p as [|a p IH].
  - rewrite ?append_nil. simpl.
    apply lastIndexOf_absent in Hq. rewrite Hq. simpl.
    rewrite Ascii.eqb_refl. reflexivity.
  - rewrite ?append_cons. simpl lastIndexOf. rewrite IH.
    destruct (Z.eqb_spec (Z.of_nat (String.length p)) (-1));
      simpl String.length; lia.
Qed.

(** A string in which [c] occurs splits at its last occurrence. *)
Lemma occurs_last (c : ascii) (s : string) :
  occurs c s = true →
  ∃ p q, s = p +:+ String c q ∧ occurs c q = false.
Proof.
  induction s as [|a s IH]; simpl; [discriminate|].
  destruct (occurs c s) eqn:Hs.
  - intros _. destruct (IH eq_refl) as (p & q & -> & Hq).
    exists (String a p), q. split; [reflexivity | exact Hq].
  - rewrite orb_false_r. intros ->%Ascii.eqb_eq.
    exists "", s. split; [reflexivity | exact Hs].
Qed.

Lemma substring_all (s : string) :
  String.substring 0 (String.length s) s = s.
Proof. induction s as [|a s IH]; simpl; [reflexivity | by rewrite IH]. Qed.

Lemma substring_head (p q : string) :
  String.substring 0 (String.length p) (p +:+ q) = p.
Proof.
  induction p as [|a p IH].
  - rewrite ?append_nil. destruct q; reflexivity.
  - rewrite ?append_cons. simpl. by rewrite IH.
Qed.

Lemma substring_tail (p q : string) :
  String.substring (String.length p) (String.length q) (p +:+ q) = q.
Proof.
  induction p as [|a p IH].
  - rewrite ?append_nil. apply substring_all.
  - rewrite ?append_cons. simpl. exact IH.
Qed.

Lemma length_append (p q : string) :
  String.length (p +:+ q) = (String.length p + String.length q)%nat.
Proof.
  induction p as [|a p IH]; [reflexivity|].
  rewrite ?append_cons. simpl. by rewrite IH.
Qed.

Lemma substring_before (p q : string) (c : ascii) :
  substring (p +:+ String c q) 0 (Some (Z.of_nat (String.length p))) = p.
Proof.
  unfold substring. rewrite length_append. simpl String.length.
  replace (Z.to_nat _) with 0%nat by lia.
  replace (Z.to_nat _) with (String.length p) by lia.
  apply substring_head.
Qed.

Lemma substring_after (p q : string) (c : ascii) :
  substring (p +:+ String c q) (Z.of_nat (String.length p) + 1) None = q.
Proof.
  unfold substring. rewrite length_append. simpl String.length.
  replace (Z.to_nat (Z.min _ _)) with (String.length (p +:+ String c "")).
  2: { rewrite length_append. simpl. lia. }
  replace (Z.to_nat (_ - _)) with (String.length q).
  2: { lia. }
  replace (p +:+ String c q) with ((p +:+ String c "") +:+ q).
  - apply substring_tail.
  - clear. induction p as [|a p IH]; [reflexivity|].
    rewrite !append_cons. by rewrite IH.
Qed.

End StringFacts.

(** ** Specifier parser *)

Lemma parsePackageLine_blank (line : string) :
  trim line = "" → parsePackageLine line = None.
Proof. unfold parsePackageLine. intros ->. reflexivity. Qed.

(** The reader of the watch-list prints nothing and writes nothing. *)
Lemma loadPackageList_silent (node : Node) (listFilePath : string) (w : World) :
  fst (loadPackageList node listFilePath w) = w.
Proof.
  unfold loadPackageList. destruct (existsSync node listFilePath); simpl.
  - unfold bind, lift. destruct (readFileSync node listFilePath); reflexivity.
  - reflexivity.
Qed.

(** The segments of [@scope/name] and of [@scope/name@version]. *)
Lemma split_scoped_two (name : string) :
  occurs "@" name = false → split "@" (String "@" name) = [""; name].
Proof. intros H. simpl. by rewrite (split_absent _ _ H). Qed.

Lemma split_scoped_three (name ver : string) :
  occurs "@" name = false → occurs "@" ver = false →
  split "@" (String "@" (name +:+ String "@" ver)) = [""; name; ver].
Proof.
  intros Hn Hv. cbn [split]. rewrite Ascii.eqb_refl.
  by rewrite (split_app _ _ _ Hn), (split_absent _ _ Hv).
Qed.

(** C5. A line that starts with [@] after trimming is split on [@]: two
    segments give the whole trimmed line as the name and no version; three
    segments give [@] followed by the second segment as the name and the
    third segment as the version; with any other number of segments the
    parser answers null, the reader of the watch-list keeps no entry for the
    line, and nothing is printed. *)
Theorem parsePackageLine_scoped (line : string) :
  startsWith (trim line) "@" = true →
  let parts := split "@" (trim line) in
  (length parts = 2 →
     parsePackageLine line
     = Some {| packageName := trim line; version := None |})
  ∧ (length parts = 3 →
     parsePackageLine line
     = Some {| packageName := "@" +:+ nth 1 parts "";
               version := Some (nth 2 parts "") |})
  ∧ (length parts ≠ 2 → length parts ≠ 3 →
     parsePackageLine line = None
     ∧ omap parsePackageLine [line] = []
     ∧ ∀ node listFilePath w, fst (loadPackageList node listFilePath w) = w)
  ∧ (∀ name,
       trim line = String "@" name → occurs "@" name = false →
       parts = [""; name]
       ∧ parsePackageLine line
         = Some {| packageName := String "@" name; version := None |})
  ∧ (∀ name ver,
       trim line = String "@" (name +:+ String "@" ver) →
       occurs "@" name = false → occurs "@" ver = false →
       parts = [""; name; ver]
       ∧ parsePackageLine line
         = Some {| packageName := String "@" name; version := Some ver |}).
Proof.
  intros Hat parts.
  assert (Ht : truthy (trim line) = true).
  { apply startsWith_at in Hat as [rest ->]. reflexivity. }
  assert (Hparse : parsePackageLine line
                   = if (length parts =? 2)%nat then
                       Some {| packageName := trim line; version := None |}
                     else if (length parts =? 3)%nat then
                       Some {| packageName := "@" +:+ nth 1 parts "";
                               version := Some (nth 2 parts "") |}
                     else None).
  { unfold parsePackageLine. rewrite Ht, Hat. reflexivity. }
  split; [|split; [|split; [|split]]].
  - intros H. rewrite Hparse, H. reflexivity.
  - intros H. rewrite Hparse, H. reflexivity.
  - intros H2 H3.
    assert (Hnone : parsePackageLine line = None).
    { rewrite Hparse.
      destruct (Nat.eqb_spec (length parts) 2) as [|_]; [contradiction|].
      destruct (Nat.eqb_spec (length parts) 3) as [|_]; [contradiction|].
      reflexivity. }
    split; [exact Hnone|]. split.
    + cbn [omap list_omap]. rewrite Hnone. reflexivity.
    + intros. apply loadPackageList_silent.
  - intros name Hline Hname.
    assert (Hparts : parts = [""; name]).
    { unfold parts. rewrite Hline. by apply split_scoped_two. }
    split; [exact Hparts|]. rewrite Hparse, Hparts, Hline. reflexivity.
  - intros name ver Hline Hname Hver.
    assert (Hparts : parts = [""; name; ver]).
    { unfold parts. rewrite Hline. by apply split_scoped_three. }
    split; [exact Hparts|]. rewrite Hparse, Hparts. reflexivity.
Qed.

Lemma parsePackageLine_scoped_witness :
  startsWith (trim "@types/node@16.0.0") "@" = true
  ∧ parsePackageLine "@types/node@16.0.0"
    = Some {| packageName := "@types/node"; version := Some "16.0.0" |}.
Proof.
  split; [reflexivity|].
  exact (proj1 (proj2 (parsePackageLine_scoped "@types/node@16.0.0" eq_refl))
           eq_refl).
Defined.

(** An unscoped line is split at its last [@]. *)
Lemma parsePackageLine_last_at (line name ver : string) :
  startsWith (trim line) "@" = false →
  trim line = name +:+ String "@" ver →
  occurs "@" ver = false →
  parsePackageLine line = Some {| packageName := name; version := Some ver |}.
Proof.
  intros Hat Ht Hver.
  assert (Hne : truthy (trim line) = true).
  { rewrite Ht. by destruct name. }
  unfold parsePackageLine. rewrite Hne, Hat. cbn [negb]. rewrite Ht.
  rewrite (lastIndexOf_app _ _ _ Hver).
  destruct (Z.eqb_spec (Z.of_nat (String.length name)) (-1)); [lia|].
  by rewrite substring_before, substring_after.
Qed.

(** C6, as amended. A non-blank trimmed line that does not start with [@]:
    without any [@] the whole line is the name and the version is absent;
    otherwise the line is split at its last [@], the text before it is the
    name and the text behind it the version.  In particular [name@version]
    gives exactly [name] and [version] when neither of them contains an
    [@]. *)
Theorem parsePackageLine_unscoped (line : string) :
  trim line ≠ "" →
  startsWith (trim line) "@" = false →
  (occurs "@" (trim line) = false →
     parsePackageLine line
     = Some {| packageName := trim line; version := None |})
  ∧ (∀ name ver,
       trim line = name +:+ String "@" ver →
       occurs "@" ver = false →
       parsePackageLine line
       = Some {| packageName := name; version := Some ver |})
  ∧ (occurs "@" (trim line) = true →
     ∃ name ver,
       trim line = name +:+ String "@" ver ∧ occurs "@" ver = false
       ∧ parsePackageLine line
         = Some {| packageName := name; version := Some ver |}).
Proof.
  intros Hne%truthy_true Hat. split; [|split].
  - unfold parsePackageLine. rewrite Hne, Hat. cbn [negb].
    intros ->%lastIndexOf_absent. reflexivity.
  - intros name ver Ht Hver. by apply parsePackageLine_last_at.
  - intros (name & ver & Ht & Hver)%occurs_last.
    exists name, ver. repeat split; [exact Ht | exact Hver|].
    by apply parsePackageLine_last_at.
Qed.

Lemma parsePackageLine_unscoped_witness :
  trim " lodash@4.17.21 " ≠ ""
  ∧ startsWith (trim " lodash@4.17.21 ") "@" = false
  ∧ parsePackageLine " lodash@4.17.21 "
    = Some {| packageName := "lodash"; version := Some "4.17.21" |}.
Proof.
  split; [discriminate|]. split; [reflexivity|].
  exact (proj1 (proj2 (parsePackageLine_unscoped " lodash@4.17.21 "
                         ltac:(discriminate) eq_refl))
           "lodash" "4.17.21" eq_refl eq_refl).
Defined.

(** C6, as stated, fails when the version text holds an [@]: the name
    [a] has no [@], yet [a@1@2] is split at the last [@]. *)
Lemma parsePackageLine_unscoped_counterexample :
  ¬ (∀ name ver,
       name ≠ "" → occurs "@" name = false →
       trim (name +:+ String "@" ver) = name +:+ String "@" ver →
       parsePackageLine (name +:+ String "@" ver)
       = Some {| packageName := name; version := Some ver |}).
Proof.
  intros H.
  specialize (H "a" "1@2" ltac:(discriminate) eq_refl eq_refl).
  vm_compute in H. discriminate H.
Qed.

(** ** Writes to the dictionary *)

Section Overlay.

Implicit Types (packages : gmap string string)
               (entries : list (string * string)).

(** A write under [__proto__] stores nothing; a write under any other
    name is an insertion. *)
Lemma setProperty_proto packages value :
  setProperty packages "__proto__" value = packages.
Proof. reflexivity. Qed.

Lemma setProperty_insert packages name value :
  name ≠ "__proto__" →
  setProperty packages name value = <[name := value]> packages.
Proof.
  intros H. unfold setProperty.
  by destruct (String.eqb_spec name "__proto__").
Qed.

Lemma setProperty_cases packages name value :
  name = "__proto__" ∧ setProperty packages name value = packages
  ∨ name ≠ "__proto__"
    ∧ setProperty packages name value = <[name := value]> packages.
Proof.
  unfold setProperty. destruct (String.eqb_spec name "__proto__"); auto.
Qed.

Lemma setProperty_other packages name value other :
  other ≠ name → setProperty packages name value !! other = packages !! other.
Proof.
  intros H. destruct (setProperty_cases packages name value) as [[_ ->]|[_ ->]];
    [reflexivity|]. by apply lookup_insert_ne.
Qed.

Lemma Object_assign_app packages entries more :
  Object_assign packages (entries ++ more)
  = Object_assign (Object_assign packages entries) more.
Proof. unfold Object_assign. apply fold_left_app. Qed.

Lemma Object_assign_cons packages name range entries :
  Object_assign packages ((name, range) :: entries)
  = Object_assign (setProperty packages name range) entries.
Proof. reflexivity. Qed.

(** A name that is not written keeps its value. *)
Lemma Object_assign_absent packages entries name :
  name ∉ entries.*1 →
  Object_assign packages entries !! name = packages !! name.
Proof.
  revert packages. induction entries as [|[n v] entries IH]; intros packages H.
  - reflexivity.
  - rewrite Object_assign_cons, IH.
    + apply setProperty_other. intros ->. apply H. simpl. left.
    + intros Hin. apply H. simpl. by right.
Qed.

(** The last write to a name other than [__proto__] is the one that is
    read back. *)
Lemma Object_assign_last packages before after name range :
  name ≠ "__proto__" →
  name ∉ after.*1 →
  Object_assign packages (before ++ (name, range) :: after) !! name
  = Some range.
Proof.
  intros Hname H. rewrite Object_assign_app, Object_assign_cons.
  rewrite (Object_assign_absent _ _ _ H), setProperty_insert by exact Hname.
  apply lookup_insert_eq.
Qed.

(** Nothing is ever stored under [__proto__]. *)
Lemma Object_assign_proto packages entries :
  Object_assign packages entries !! "__proto__" = packages !! "__proto__".
Proof.
  revert packages. induction entries as [|[n v] entries IH]; intros packages;
    [reflexivity|].
  rewrite Object_assign_cons, IH.
  destruct (setProperty_cases packages n v) as [[_ ->]|[Hn ->]];
    [reflexivity|]. by apply lookup_insert_ne.
Qed.

(** Writing on top of [packages] is writing on top of nothing and then
    filling in, from [packages], the names that were not written. *)
Lemma Object_assign_union packages entries :
  Object_assign packages entries = Object_assign ∅ entries ∪ packages.
Proof.
  revert packages. induction entries as [|[n v] entries IH]; intros packages.
  - simpl. by rewrite (left_id_L ∅ (∪)).
  - rewrite !Object_assign_cons, IH, (IH (setProperty ∅ n v)).
    rewrite <- (assoc_L (∪)). f_equal.
    destruct (setProperty_cases packages n v) as [[-> ->]|[Hn ->]].
    + by rewrite setProperty_proto, (left_id_L ∅ (∪)).
    + rewrite setProperty_insert by exact Hn.
      by rewrite <- insert_union_l, (left_id_L ∅ (∪)).
Qed.

(** What a map written from a list of records holds under a name other
    than [__proto__]: the last record for the name, or what it held. *)
Lemma Object_assign_declared (packages : gmap string string)
    (entries : list (string * string)) (name : string) :
  name ≠ "__proto__" →
  Object_assign packages entries !! name
  = match declaredIn entries name with
    | Some range => Some range
    | None => packages !! name
    end.
Proof.
  intros Hname. revert packages.
  induction entries as [|[n v] rest IH]; intros packages; [reflexivity|].
  rewrite Object_assign_cons, IH. cbn [declaredIn].
  destruct (declaredIn rest name); [reflexivity|].
  destruct (String.eqb_spec n name) as [->|Hne].
  - rewrite setProperty_insert by exact Hname. apply lookup_insert_eq.
  - by apply setProperty_other.
Qed.

End Overlay.

(** ** Lockfile graph collector *)

Section Collector.

Implicit Types (packages : gmap string string).

(** The callback records the entry, then calls [collectAllDependencies]
    on [info.dependencies] (lines 61-63). *)
Lemma collectEntry_unfold name info packages :
  collectEntry name info packages
  = collectAllDependencies (dep_dependencies info)
      (recordVersion name info packages).
Proof.
  destruct info as [version [entries|]];
    cbn [collectEntry dep_version dep_dependencies]; [|reflexivity].
  unfold collectAllDependencies, recordVersion. cbn [dep_version].
  generalize (match version with
              | Some version0 =>
                  if truthy version0
                  then setProperty packages name (cleanVersion version0)
                  else packages
              | None => packages
              end).
  induction entries as [|[n i] rest IH]; intros p; [reflexivity|].
  cbn [fold_left]. apply IH.
Qed.

Lemma collectAllDependencies_cons name info rest packages :
  collectAllDependencies (Some ((name, info) :: rest)) packages
  = collectAllDependencies (Some rest)
      (collectAllDependencies (dep_dependencies info)
         (recordVersion name info packages)).
Proof.
  unfold collectAllDependencies at 1 2. cbn [fold_left].
  by rewrite collectEntry_unfold.
Qed.

Lemma recordVersion_assign name info packages :
  recordVersion name info packages
  = Object_assign packages
      match dep_version info with
      | Some version =>
          if truthy version then [(name, cleanVersion version)] else []
      | None => []
      end.
Proof.
  unfold recordVersion. destruct (dep_version info) as [v|]; [|reflexivity].
  destruct (truthy v); reflexivity.
Qed.

Lemma collectEntry_visit info : ∀ name packages,
  collectEntry name info packages
  = Object_assign packages (visitEntry name info).
Proof.
  induction info as [version dependencies IH] using DepInfo_nested_ind.
  intros name packages.
  rewrite collectEntry_unfold, recordVersion_assign.
  cbn [visitEntry]. rewrite Object_assign_app.
  cbn [dep_version dep_dependencies].
  generalize (Object_assign packages
                match version with
                | Some v => if truthy v then [(name, cleanVersion v)] else []
                | None => []
                end).
  destruct dependencies as [entries|]; [|reflexivity].
  unfold collectAllDependencies.
  induction entries as [|[n i] rest IHrest]; intros p; [reflexivity|].
  apply Forall_cons in IH as [Hi Hrest]. cbn [snd] in Hi.
  cbn [fold_left flat_map]. rewrite Object_assign_app, <- (Hi n p).
  apply IHrest, Hrest.
Qed.

Lemma collectAllDependencies_visit dependencies packages :
  collectAllDependencies (Some dependencies) packages
  = Object_assign packages (visit dependencies).
Proof.
  revert packages. unfold collectAllDependencies, visit.
  induction dependencies as [|[n i] rest IH]; intros packages; [reflexivity|].
  cbn [fold_left flat_map].
  by rewrite Object_assign_app, <- collectEntry_visit, IH.
Qed.

(** [cleanVersion] removes a run of range operators from the front and
    nothing else. *)
Lemma cleanVersion_spec (version : string) :
  ∃ operators,
    version = operators +:+ cleanVersion version
    ∧ all_chars is_range_operator operators = true
    ∧ match cleanVersion version with
      | "" => True
      | String c _ => is_range_operator c = false
      end.
Proof.
  induction version as [|c rest (ops & Heq & Hops & Hhead)].
  - exists "". repeat split.
  - cbn [cleanVersion]. destruct (is_range_operator c) eqn:Hc.
    + exists (String c ops). rewrite append_cons, <- Heq.
      repeat split; [|exact Hhead]. cbn [all_chars]. by rewrite Hc, Hops.
    + exists "". repeat split. exact Hc.
Qed.

(** Without a leading range operator the version is recorded as it is. *)
Lemma cleanVersion_id (c : ascii) (rest : string) :
  is_range_operator c = false → cleanVersion (String c rest) = String c rest.
Proof. intros H. cbn [cleanVersion]. by rewrite H. Qed.

End Collector.

(** C3, as amended. The collector walks the nested [dependencies] mapping
    depth first: an entry is recorded, then its own nested mapping is
    walked, then the following entries.  An entry that carries a non-empty
    version, under a name other than [__proto__], is recorded under its name
    with the leading range operators ([^], [~], [>], [=], [<], in any
    combination, at the start only) removed; a later record for a name
    overwrites the earlier one.  The nested input of the specification gives
    entries for both [a] and [b]. *)
Theorem collectAllDependencies_depth_first
    (dependencies : list (string * DepInfo)) (packages : gmap string string) :
  (∀ name info rest,
     collectAllDependencies (Some ((name, info) :: rest)) packages
     = collectAllDependencies (Some rest)
         (collectAllDependencies (dep_dependencies info)
            (recordVersion name info packages)))
  ∧ (∀ name ver nested,
       truthy ver = true →
       name ≠ "__proto__" →
       recordVersion name (mkDepInfo (Some ver) nested) packages
       = <[name := cleanVersion ver]> packages)
  ∧ (∀ ver, ∃ operators,
       ver = operators +:+ cleanVersion ver
       ∧ all_chars is_range_operator operators = true
       ∧ match cleanVersion ver with
         | "" => True
         | String c _ => is_range_operator c = false
         end)
  ∧ collectAllDependencies (Some dependencies) packages
    = Object_assign packages (visit dependencies)
  ∧ (∀ name ver before after,
       name ≠ "__proto__" →
       visit dependencies = (before ++ ((name, ver) :: after))%list →
       name ∉ after.*1 →
       collectAllDependencies (Some dependencies) packages !! name = Some ver)
  ∧ (∀ name,
       name ∉ (visit dependencies).*1 →
       collectAllDependencies (Some dependencies) packages !! name
       = packages !! name)
  ∧ collectAllDependencies
      (Some [("a", mkDepInfo (Some "1.0.0")
                     (Some [("b", mkDepInfo (Some "2.0.0") None)]))])
      packages
    = <["b" := "2.0.0"]> (<["a" := "1.0.0"]> packages).
Proof.
  repeat apply conj.
  - intros. apply collectAllDependencies_cons.
  - intros name ver nested H Hname. unfold recordVersion. cbn [dep_version].
    rewrite H. by apply setProperty_insert.
  - apply cleanVersion_spec.
  - apply collectAllDependencies_visit.
  - intros name ver before after Hname Hvisit Hlast.
    rewrite collectAllDependencies_visit, Hvisit.
    by apply Object_assign_last.
  - intros name H. rewrite collectAllDependencies_visit.
    by apply Object_assign_absent.
  - reflexivity.
Qed.

Lemma collectAllDependencies_depth_first_witness :
  let dependencies :=
    [("a", mkDepInfo (Some "1.0.0")
             (Some [("a", mkDepInfo (Some "^2.0.0") None)]))] in
  ("a" ≠ "__proto__")
  ∧ visit dependencies = app [("a", "1.0.0")] [("a", "2.0.0")]
  ∧ ("a" ∉ (@nil (string * string)).*1)
  ∧ (collectAllDependencies (Some dependencies) {["a" := "0.0.1"]}) !! "a"
    = Some "2.0.0".
Proof.
  intros dependencies.
  assert (Hname : "a" ≠ "__proto__") by discriminate.
  assert (Hlast : "a" ∉ (@nil (string * string)).*1).
  { intros H. inversion H. }
  split; [exact Hname|]. split; [reflexivity|]. split; [exact Hlast|].
  exact (proj1 (proj2 (proj2 (proj2 (proj2
           (collectAllDependencies_depth_first dependencies {["a" := "0.0.1"]})))))
           "a" "2.0.0" [("a", "1.0.0")] [] Hname eq_refl Hlast).
Defined.

(** C3, as stated, fails on an entry whose version field is the empty
    text, and on an entry named [__proto__]: both carry the field, and
    nothing is recorded for either. *)
Lemma collectAllDependencies_counterexample :
  let empty := mkDepInfo (Some "") None in
  let proto := mkDepInfo (Some "1.0.0") None in
  let packages :=
    collectAllDependencies (Some [("a", empty); ("__proto__", proto)]) ∅ in
  dep_version empty = Some ""
  ∧ packages !! "a" = None
  ∧ packages !! "a" ≠ Some (cleanVersion "")
  ∧ dep_version proto = Some "1.0.0"
  ∧ packages !! "__proto__" = None
  ∧ packages !! "__proto__" ≠ Some (cleanVersion "1.0.0")
  ∧ packages = ∅.
Proof.
  cbn zeta.
  assert (H : collectAllDependencies
                (Some [("a", mkDepInfo (Some "") None);
                       ("__proto__", mkDepInfo (Some "1.0.0") None)]) ∅
              = (∅ : gmap string string)) by reflexivity.
  rewrite H, !lookup_empty. by repeat apply conj.
Qed.

(** ** Flat lockfile table *)

Section FlatTable.

Lemma stripPrefix_app (p rest : string) :
  stripPrefix p (p +:+ rest) = Some rest.
Proof.
  induction p as [|a p IH]; [by destruct rest|].
  rewrite append_cons. cbn [stripPrefix]. by rewrite Ascii.eqb_refl.
Qed.

Lemma stripPrefix_Some (p s rest : string) :
  stripPrefix p s = Some rest → s = p +:+ rest.
Proof.
  revert s. induction p as [|a p IH]; intros s.
  - destruct s; cbn [stripPrefix]; intros [= <-]; reflexivity.
  - destruct s as [|b s]; cbn [stripPrefix]; [discriminate|].
    destruct (Ascii.eqb_spec a b) as [<-|]; [|discriminate].
    intros H. rewrite append_cons. f_equal. by apply IH.
Qed.

Lemma replace_unfold (s p r : string) :
  replace s p r
  = match stripPrefix p s with
    | Some rest => r +:+ rest
    | None => match s with
              | "" => ""
              | String c s' => String c (replace s' p r)
              end
    end.
Proof. destruct s; reflexivity. Qed.

Lemma replace_prefix (p rest : string) : replace (p +:+ rest) p "" = rest.
Proof. by rewrite replace_unfold, stripPrefix_app. Qed.

Lemma startsWith_app (p rest : string) : startsWith (p +:+ rest) p = true.
Proof. unfold startsWith. by rewrite stripPrefix_app. Qed.

Lemma startsWith_true (s p : string) :
  startsWith s p = true → ∃ rest, s = p +:+ rest.
Proof.
  unfold startsWith.
  destruct (stripPrefix p s) as [rest|] eqn:H; [|discriminate].
  intros _. exists rest. by apply stripPrefix_Some.
Qed.

Lemma collectPackage_topLevel packages entry :
  collectPackage packages entry = Object_assign packages (topLevel entry).
Proof.
  destruct entry as [packagePath info].
  unfold collectPackage, topLevel, startsWith.
  destruct (stripPrefix "node_modules/" packagePath) as [rest|] eqn:H;
    [|reflexivity].
  apply stripPrefix_Some in H as ->. rewrite replace_prefix.
  destruct (pkg_version info) as [v|]; [|reflexivity].
  destruct (truthy v && negb (includes rest "/node_modules/")); reflexivity.
Qed.

End FlatTable.

(** C4, as amended. An entry of the flat [packages] table is recorded only
    when its path starts with [node_modules/], it carries a non-empty
    version, and the rest of the path behind that prefix does not contain
    [/node_modules/], the marker behind a path separator; entries nested
    under another package are skipped.  An accepted entry whose rest of the
    path is not [__proto__] is recorded under exactly the rest of the path,
    with the leading range operators of its version removed. *)
Theorem collectPackage_top_level (packages : gmap string string) :
  (∀ rest ver,
     truthy ver = true →
     includes rest "/node_modules/" = false →
     rest ≠ "__proto__" →
     collectPackage packages ("node_modules/" +:+ rest, mkPackageInfo (Some ver))
     = <[rest := cleanVersion ver]> packages)
  ∧ (∀ rest info,
       includes rest "/node_modules/" = true →
       collectPackage packages ("node_modules/" +:+ rest, info) = packages)
  ∧ (∀ packagePath info,
       startsWith packagePath "node_modules/" = false →
       collectPackage packages (packagePath, info) = packages)
  ∧ (∀ packagePath info,
       truthy_opt (pkg_version info) = false →
       collectPackage packages (packagePath, info) = packages)
  ∧ (∀ packagePath info,
       collectPackage packages (packagePath, info) ≠ packages →
       ∃ rest ver,
         packagePath = "node_modules/" +:+ rest
         ∧ includes rest "/node_modules/" = false
         ∧ rest ≠ "__proto__"
         ∧ pkg_version info = Some ver ∧ truthy ver = true
         ∧ collectPackage packages (packagePath, info)
           = <[rest := cleanVersion ver]> packages).
Proof.
  assert (Hskip : ∀ rest info,
            includes rest "/node_modules/" = true →
            collectPackage packages ("node_modules/" +:+ rest, info) = packages).
  { intros rest info H. unfold collectPackage.
    rewrite startsWith_app, replace_prefix, H.
    destruct (pkg_version info) as [v|]; [|reflexivity].
    by rewrite andb_false_r. }
  assert (Hout : ∀ packagePath info,
            startsWith packagePath "node_modules/" = false →
            collectPackage packages (packagePath, info) = packages).
  { intros packagePath info H. unfold collectPackage. by rewrite H. }
  assert (Hnone : ∀ packagePath info,
            truthy_opt (pkg_version info) = false →
            collectPackage packages (packagePath, info) = packages).
  { intros packagePath info H. unfold collectPackage.
    destruct (startsWith packagePath "node_modules/"); [|reflexivity].
    destruct (pkg_version info) as [v|]; [|reflexivity].
    cbn [truthy_opt] in H. by rewrite H. }
  assert (Hset : ∀ rest ver,
            truthy ver = true →
            includes rest "/node_modules/" = false →
            collectPackage packages ("node_modules/" +:+ rest, mkPackageInfo (Some ver))
            = setProperty packages rest (cleanVersion ver)).
  { intros rest ver Hv Hrest. unfold collectPackage.
    rewrite startsWith_app, replace_prefix. cbn [pkg_version].
    by rewrite Hv, Hrest. }
  assert (Hin : ∀ rest ver,
            truthy ver = true →
            includes rest "/node_modules/" = false →
            rest ≠ "__proto__" →
            collectPackage packages ("node_modules/" +:+ rest, mkPackageInfo (Some ver))
            = <[rest := cleanVersion ver]> packages).
  { intros rest ver Hv Hrest Hname.
    rewrite Hset by assumption. by apply setProperty_insert. }
  repeat apply conj; try assumption.
  intros packagePath info Hchanged.
  destruct (startsWith packagePath "node_modules/") eqn:Hstart.
  2: { exfalso. apply Hchanged. by apply Hout. }
  apply startsWith_true in Hstart as [rest ->].
  destruct (includes rest "/node_modules/") eqn:Hrest.
  { exfalso. apply Hchanged. by apply Hskip. }
  destruct info as [[ver|]].
  2: { exfalso. apply Hchanged. by apply Hnone. }
  destruct (truthy ver) eqn:Hv.
  2: { exfalso. apply Hchanged. by apply Hnone. }
  assert (Hname : rest ≠ "__proto__").
  { intros ->. apply Hchanged. by rewrite Hset. }
  exists rest, ver.
  repeat split; [exact Hrest | exact Hname | exact Hv | by apply Hin].
Qed.

Lemma collectPackage_top_level_witness :
  truthy "^4.17.21" = true
  ∧ includes "lodash" "/node_modules/" = false
  ∧ ("lodash" ≠ "__proto__")
  ∧ collectPackage ∅ ("node_modules/lodash", mkPackageInfo (Some "^4.17.21"))
    = <["lodash" := "4.17.21"]> ∅.
Proof.
  assert (Hname : "lodash" ≠ "__proto__") by discriminate.
  split; [reflexivity|]. split; [reflexivity|]. split; [exact Hname|].
  exact (proj1 (collectPackage_top_level ∅) "lodash" "^4.17.21"
           eq_refl eq_refl Hname).
Defined.

(** C4, as stated, fails when the rest of the path holds the marker
    [node_modules/] without a separator in front of it: the entry is
    recorded.  It fails as well for the path [node_modules/__proto__]: the
    entry is accepted and nothing is recorded under the rest of its path. *)
Lemma collectPackage_counterexample :
  startsWith "node_modules/node_modules/x" "node_modules/" = true
  ∧ includes "node_modules/x" "node_modules/" = true
  ∧ collectPackage ∅ ("node_modules/node_modules/x", mkPackageInfo (Some "1.0.0"))
      !! "node_modules/x" = Some "1.0.0"
  ∧ includes "@my_node_modules/pkg" "node_modules/" = true
  ∧ collectPackage ∅ ("node_modules/@my_node_modules/pkg",
                       mkPackageInfo (Some "1.0.0"))
      !! "@my_node_modules/pkg" = Some "1.0.0"
  ∧ startsWith "node_modules/__proto__" "node_modules/" = true
  ∧ includes "__proto__" "node_modules/" = false
  ∧ collectPackage ∅ ("node_modules/__proto__", mkPackageInfo (Some "1.0.0"))
      !! "__proto__" = None
  ∧ collectPackage ∅ ("node_modules/__proto__", mkPackageInfo (Some "1.0.0"))
    = ∅.
Proof.
  repeat apply conj; reflexivity.
Qed.

(** ** Version comparator *)

Section Comparator.

Variable semver : SemverLib.

(** Without a threshold, or with the empty text as threshold, the answer
    is false and nothing happens. *)
Lemma isVersionLowerOrEqual_falsy installed required (w : World) :
  truthy_opt required = false →
  isVersionLowerOrEqual semver installed required w = (w, Ok false).
Proof.
  unfold isVersionLowerOrEqual. destruct required as [r|]; [|reflexivity].
  cbn [truthy_opt]. by intros ->.
Qed.

(** The body of the [try] block, case by case. *)
Lemma isVersionLowerOrEqual_cases installed required (w : World) :
  truthy required = true →
  isVersionLowerOrEqual semver installed (Some required) w
  = match clean semver installed, clean semver required with
    | Ok ci, Ok cr =>
        if negb (truthy_opt ci) || negb (truthy_opt cr) then (w, Ok false)
        else match lte semver (default "" ci) (default "" cr) with
             | Ok b => (w, Ok b)
             | Thrown _ => (warned w installed required, Ok false)
             end
    | _, _ => (warned w installed required, Ok false)
    end.
Proof.
  intros Hr. unfold isVersionLowerOrEqual. rewrite Hr. cbn [negb].
  unfold tryCatch, bind, lift, ret, print, say, warned, comparisonWarning.
  destruct (clean semver installed) as [ci|e1]; [|reflexivity].
  destruct (clean semver required) as [cr|e2]; [|reflexivity].
  destruct (negb (truthy_opt ci) || negb (truthy_opt cr)); [reflexivity|].
  destruct (lte semver _ _); reflexivity.
Qed.

End Comparator.

(** X20. Whatever the semver package does, and whatever value was read as
    the installed version: with a threshold, when a cleaning answers null
    the comparator answers false, raises nothing and prints nothing; the
    comparison warning is printed, and false is answered, exactly when a
    call into the package raises; the comparator itself never raises. *)
Theorem isVersionLowerOrEqual_warning (semver : SemverLib)
    (installed : JsValue) (required : string) (w : World) :
  truthy required = true →
  (∀ ci cr,
     clean semver installed = Ok ci → clean semver required = Ok cr →
     truthy_opt ci = false ∨ truthy_opt cr = false →
     isVersionLowerOrEqual semver installed (Some required) w = (w, Ok false))
  ∧ ((∃ e, clean semver installed = Thrown e)
     ∨ (∃ e, clean semver required = Thrown e)
     ∨ (∃ ci cr e, clean semver installed = Ok (Some ci)
                   ∧ clean semver required = Ok (Some cr)
                   ∧ truthy ci = true ∧ truthy cr = true
                   ∧ lte semver ci cr = Thrown e)
     ↔ isVersionLowerOrEqual semver installed (Some required) w
       = (warned w installed required, Ok false))
  ∧ (∃ w' b, isVersionLowerOrEqual semver installed (Some required) w
             = (w', Ok b)).
Proof.
  intros Hr.
  assert (Hw : ∀ b, (w, Ok b) ≠ (warned w installed required, Ok false)).
  { intros b [= H _]. apply (f_equal console) in H. cbn in H.
    apply (f_equal length) in H. rewrite length_app in H. cbn in H. lia. }
  rewrite (isVersionLowerOrEqual_cases semver installed required w Hr).
  split; [|split].
  - intros ci cr -> -> H.
    destruct H as [-> | ->]; cbn [negb orb]; [reflexivity|].
    by rewrite orb_true_r.
  - destruct (clean semver installed) as [ci|e1].
    2: { split; [reflexivity | intros _; left; eauto]. }
    destruct (clean semver required) as [cr|e2].
    2: { split; [reflexivity | intros _; right; left; eauto]. }
    destruct ci as [ci|], cr as [cr|]; cbn [truthy_opt negb orb from_option id].
    + destruct (truthy ci) eqn:Hci, (truthy cr) eqn:Hcr; cbn [negb orb].
      * destruct (lte semver ci cr) as [b|e] eqn:Hlte.
        -- split; [|intros H; by apply Hw in H].
           intros [[e H]|[[e H]|(ci' & cr' & e & [= <-] & [= <-] & _ & _ & H)]];
             congruence.
        -- split; [reflexivity|]. intros _. right; right.
           exists ci, cr, e. by repeat split.
      * split; [|intros H; by apply Hw in H].
        intros [[e H]|[[e H]|(ci' & cr' & e & [= <-] & [= <-] & _ & H & _)]];
          congruence.
      * split; [|intros H; by apply Hw in H].
        intros [[e H]|[[e H]|(ci' & cr' & e & [= <-] & [= <-] & H & _)]];
          congruence.
      * split; [|intros H; by apply Hw in H].
        intros [[e H]|[[e H]|(ci' & cr' & e & [= <-] & [= <-] & H & _)]];
          congruence.
    + rewrite orb_true_r. split; [|intros H; by apply Hw in H].
      intros [[e H]|[[e H]|(ci' & cr' & e & _ & H & _)]]; congruence.
    + split; [|intros H; by apply Hw in H].
      intros [[e H]|[[e H]|(ci' & cr' & e & H & _)]]; congruence.
    + split; [|intros H; by apply Hw in H].
      intros [[e H]|[[e H]|(ci' & cr' & e & H & _)]]; congruence.
  - destruct (clean semver installed) as [ci|e1]; [|eauto].
    destruct (clean semver required) as [cr|e2]; [|eauto].
    destruct (negb (truthy_opt ci) || negb (truthy_opt cr)); [eauto|].
    destruct (lte semver _ _); eauto.
Qed.

(** C10. Without a threshold the comparator answers false for every
    installed version, and it treats every falsy threshold, the empty text
    in particular, in the same way.  An unscoped line that ends in [@]
    parses to the empty text as version, not to an absent one; such an
    entry is never reported stale. *)
Theorem isVersionLowerOrEqual_no_threshold :
  (∀ semver installed w,
     isVersionLowerOrEqual semver installed None w = (w, Ok false))
  ∧ (∀ semver installed w,
       isVersionLowerOrEqual semver installed (Some "") w = (w, Ok false))
  ∧ (∀ semver installed required w,
       truthy_opt required = false →
       isVersionLowerOrEqual semver installed required w = (w, Ok false))
  ∧ (∀ line name,
       trim line = name +:+ "@" →
       startsWith (trim line) "@" = false →
       parsePackageLine line
       = Some {| packageName := name; version := Some "" |})
  ∧ parsePackageLine "name@"
    = Some {| packageName := "name"; version := Some "" |}
  ∧ (∀ semver projectPackages results listPackage installed w,
       truthy_opt (version listPackage) = false →
       projectPackages !! packageName listPackage = Some installed →
       truthy installed = true →
       ∃ w', checkPackage semver projectPackages results listPackage w
             = (w', Ok (app results [
                  {| MatchRecord.packageName := packageName listPackage;
                     MatchRecord.version := installed;
                     MatchRecord.requiredVersion := version listPackage;
                     MatchRecord.isLowerOrEqual := false |} ]))).
Proof.
  repeat apply conj.
  - intros. by apply isVersionLowerOrEqual_falsy.
  - intros. by apply isVersionLowerOrEqual_falsy.
  - intros. by apply isVersionLowerOrEqual_falsy.
  - intros line name Ht Hat. by apply parsePackageLine_last_at.
  - reflexivity.
  - intros semver projectPackages results listPackage installed w Hv Hin Ht.
    unfold checkPackage, getProperty. rewrite Hin. cbn [truthyValue].
    rewrite Ht. unfold bind.
    rewrite (isVersionLowerOrEqual_falsy semver installed _ w Hv).
    unfold print, ret. eexists. reflexivity.
Qed.

Lemma isVersionLowerOrEqual_no_threshold_witness :
  trim " name@ " = "name" +:+ "@"
  ∧ startsWith (trim " name@ ") "@" = false
  ∧ parsePackageLine " name@ "
    = Some {| packageName := "name"; version := Some "" |}.
Proof.
  split; [reflexivity|]. split; [reflexivity|].
  exact (proj1 (proj2 (proj2 (proj2 isVersionLowerOrEqual_no_threshold)))
           " name@ " "name" eq_refl eq_refl).
Defined.

(** ** Precedence of semantic versions *)

Module SemverOrder.

Import Semver.

Lemma orElse_cases (a b : Z) :
  (a = 0%Z ∧ orElse a b = b) ∨ (a ≠ 0%Z ∧ orElse a b = a).
Proof. unfold orElse. destruct (Z.eqb_spec a 0); auto. Qed.

Lemma compareNumbers_cases (x y : N) :
  (compareNumbers x y = (-1)%Z ∧ (x < y)%N)
  ∨ (compareNumbers x y = 0%Z ∧ x = y)
  ∨ (compareNumbers x y = 1%Z ∧ (y < x)%N).
Proof.
  unfold compareNumbers. destruct (N.compare_spec x y); auto.
Qed.

(** Case analysis on the three numbers of two versions. *)
Ltac main_cases a b :=
  unfold compareMain, orElse;
  destruct (compareNumbers_cases (major a) (major b))
    as [[-> ?]|[[-> ?]|[-> ?]]];
  destruct (compareNumbers_cases (minor a) (minor b))
    as [[-> ?]|[[-> ?]|[-> ?]]];
  destruct (compareNumbers_cases (patch a) (patch b))
    as [[-> ?]|[[-> ?]|[-> ?]]];
  cbn.

Lemma lexLt_compare (x y : string) : lexLt x y ↔ String.compare x y = Lt.
Proof.
  split.
  - induction 1 as [c s|a b s t H|a s t _ IH]; cbn [String.compare].
    + reflexivity.
    + unfold Ascii.compare. apply N.compare_lt_iff in H. by rewrite H.
    + unfold Ascii.compare. by rewrite N.compare_refl.
  - revert y. induction x as [|a x IH]; intros [|b y]; cbn [String.compare];
      try discriminate.
    + intros _. constructor.
    + destruct (Ascii.compare a b) eqn:Hab; try discriminate.
      * apply Ascii.compare_eq_iff in Hab as ->.
        intros H. apply lexLt_tail, IH, H.
      * intros _. apply lexLt_head. by apply N.compare_lt_iff.
Qed.

Lemma compareIdentifiers_cases (a b : Identifier) :
  (compareIdentifiers a b = (-1)%Z ∧ identifierLt a b)
  ∨ (compareIdentifiers a b = 0%Z ∧ a = b)
  ∨ (compareIdentifiers a b = 1%Z ∧ identifierLt b a).
Proof.
  destruct a as [x|x], b as [y|y]; cbn [compareIdentifiers].
  - destruct (compareNumbers_cases x y) as [[-> H]|[[-> ->]|[-> H]]];
      [left | right; left | right; right]; split; auto; by constructor.
  - left. split; [reflexivity | constructor].
  - right; right. split; [reflexivity | constructor].
  - destruct (String.compare x y) eqn:H.
    + apply String.compare_eq_iff in H as ->. auto.
    + left. split; [reflexivity|]. constructor. by apply lexLt_compare.
    + right; right. split; [reflexivity|]. constructor.
      apply lexLt_compare. rewrite String.compare_antisym, H. reflexivity.
Qed.

Lemma lexLt_irrefl (x : string) : ¬ lexLt x x.
Proof.
  induction x as [|a x IH]; inversion 1; subst; [lia | by apply IH].
Qed.

Lemma identifierLt_irrefl (a : Identifier) : ¬ identifierLt a a.
Proof.
  inversion 1; subst; [lia | by eapply lexLt_irrefl].
Qed.

Lemma lexLt_asym (x y : string) : lexLt x y → ¬ lexLt y x.
Proof.
  intros H1%lexLt_compare H2%lexLt_compare.
  rewrite String.compare_antisym, H2 in H1. discriminate.
Qed.

Lemma identifierLt_asym (a b : Identifier) :
  identifierLt a b → ¬ identifierLt b a.
Proof.
  inversion 1; subst; inversion 1; subst; [lia | by eapply lexLt_asym].
Qed.

(** The answer of [compareIdentifiers] decides the order. *)
Lemma compareIdentifiers_lt (a b : Identifier) :
  compareIdentifiers a b = (-1)%Z ↔ identifierLt a b.
Proof.
  destruct (compareIdentifiers_cases a b) as [[E H]|[[E ->]|[E H]]];
    rewrite E; split; try done.
  - intros H. by apply identifierLt_irrefl in H.
  - intros H'. by apply identifierLt_asym in H'.
Qed.

Lemma compareIdentifiers_eq (a b : Identifier) :
  compareIdentifiers a b = 0%Z ↔ a = b.
Proof.
  destruct (compareIdentifiers_cases a b) as [[E H]|[[E ->]|[E H]]];
    rewrite E; split; try done; intros ->; by apply identifierLt_irrefl in H.
Qed.

Lemma compareIdentifiers_range (a b : Identifier) :
  (-1 ≤ compareIdentifiers a b ≤ 1)%Z.
Proof.
  destruct (compareIdentifiers_cases a b) as [[-> _]|[[-> _]|[-> _]]]; lia.
Qed.

Lemma compareFields_range (a b : list Identifier) :
  (-1 ≤ compareFields a b ≤ 1)%Z.
Proof.
  revert b. induction a as [|x a IH]; intros [|y b]; cbn [compareFields];
    try lia.
  destruct (orElse_cases (compareIdentifiers x y) (compareFields a b))
    as [[_ ->]|[_ ->]]; [apply IH | apply compareIdentifiers_range].
Qed.

Lemma compareFields_lt (a b : list Identifier) :
  compareFields a b = (-1)%Z ↔ fieldsLt a b.
Proof.
  revert b. induction a as [|x a IH]; intros [|y b]; cbn [compareFields].
  - split; [discriminate | inversion 1].
  - split; [constructor | reflexivity].
  - split; [discriminate | inversion 1].
  - destruct (orElse_cases (compareIdentifiers x y) (compareFields a b))
      as [[E ->]|[E ->]].
    + apply compareIdentifiers_eq in E as ->. rewrite IH. split.
      * by constructor.
      * inversion 1; subst; [|done]. by apply identifierLt_irrefl in H1.
    + rewrite compareIdentifiers_lt. split; [by constructor|].
      inversion 1; subst; [done|]. exfalso. apply E.
      by apply compareIdentifiers_eq.
Qed.

Lemma compareFields_eq (a b : list Identifier) :
  compareFields a b = 0%Z ↔ a = b.
Proof.
  revert b. induction a as [|x a IH]; intros [|y b]; cbn [compareFields];
    try (split; discriminate); [done|].
  destruct (orElse_cases (compareIdentifiers x y) (compareFields a b))
    as [[E ->]|[E ->]].
  - apply compareIdentifiers_eq in E as ->. rewrite IH.
    split; [by intros -> | by intros [= ->]].
  - split; [done|]. intros [= -> _]. exfalso. apply E.
    by apply compareIdentifiers_eq.
Qed.

Lemma compareMain_lt (a b : Version) :
  compareMain a b = (-1)%Z
  ↔ (major a < major b)%N
    ∨ (major a = major b ∧ (minor a < minor b)%N)
    ∨ (major a = major b ∧ minor a = minor b ∧ (patch a < patch b)%N).
Proof. main_cases a b; split; intros; try done; try lia; auto. Qed.

Lemma compareMain_eq (a b : Version) :
  compareMain a b = 0%Z
  ↔ major a = major b ∧ minor a = minor b ∧ patch a = patch b.
Proof. main_cases a b; split; intros; try done; try lia; auto. Qed.

Lemma compareMain_range (a b : Version) : (-1 ≤ compareMain a b ≤ 1)%Z.
Proof. main_cases a b; lia. Qed.

Lemma comparePre_lt (a b : Version) :
  comparePre a b = (-1)%Z
  ↔ (prerelease a ≠ [] ∧ prerelease b = [])
    ∨ (prerelease a ≠ [] ∧ prerelease b ≠ []
       ∧ fieldsLt (prerelease a) (prerelease b)).
Proof.
  unfold comparePre.
  destruct (prerelease a) as [|x pa] eqn:Ha, (prerelease b) as [|y pb] eqn:Hb.
  - split; [discriminate | intros [[? _]|[? _]]; done].
  - split; [discriminate | intros [[? _]|[? _]]; done].
  - split; [intros _; by left | done].
  - rewrite compareFields_lt. split; [intros H; right; by repeat split|].
    intros [[_ ?]|(_ & _ & ?)]; done.
Qed.

Lemma comparePre_eq (a b : Version) :
  comparePre a b = 0%Z ↔ prerelease a = prerelease b.
Proof.
  unfold comparePre.
  destruct (prerelease a) as [|x pa], (prerelease b) as [|y pb];
    try (split; discriminate); [done|].
  apply compareFields_eq.
Qed.

Lemma comparePre_range (a b : Version) : (-1 ≤ comparePre a b ≤ 1)%Z.
Proof.
  unfold comparePre.
  destruct (prerelease a) as [|x pa], (prerelease b) as [|y pb]; try lia.
  apply compareFields_range.
Qed.

Lemma Version_eq (a b : Version) :
  major a = major b → minor a = minor b → patch a = patch b →
  prerelease a = prerelease b → a = b.
Proof. destruct a, b; cbn; by intros -> -> -> ->. Qed.

(** A lower precedence makes the comparison answer [-1]. *)
Lemma precedes_compare (a b : Version) :
  precedes a b → compare a b = (-1)%Z.
Proof.
  assert (Hmain : compareMain a b = (-1)%Z → compare a b = (-1)%Z).
  { intros E. unfold compare, orElse. by rewrite E. }
  assert (Hpre : compareMain a b = 0%Z → comparePre a b = (-1)%Z →
                 compare a b = (-1)%Z).
  { intros E1 E2. unfold compare, orElse. by rewrite E1. }
  destruct 1 as [a b H|a b H1 H2|a b H1 H2 H3|a b H1 H2 H3 H4 H5
                 |a b H1 H2 H3 H4 H5 H6].
  - apply Hmain, compareMain_lt. auto.
  - apply Hmain, compareMain_lt. auto.
  - apply Hmain, compareMain_lt. auto.
  - apply Hpre; [by apply compareMain_eq|]. apply comparePre_lt. auto.
  - apply Hpre; [by apply compareMain_eq|]. apply comparePre_lt. auto.
Qed.

(** The comparison of the package agrees with the precedence of the
    semantic versioning specification. *)
Lemma compare_le (a b : Version) : (compare a b ≤ 0)%Z ↔ le a b.
Proof.
  unfold le. split.
  - unfold compare. intros H.
    destruct (orElse_cases (compareMain a b) (comparePre a b))
      as [[E Ho]|[E Ho]]; rewrite Ho in H.
    + apply compareMain_eq in E as (HM & Hm & Hp).
      pose proof (comparePre_range a b) as Hrange.
      assert (Hc : comparePre a b = (-1)%Z ∨ comparePre a b = 0%Z) by lia.
      destruct Hc as [Hc|Hc].
      * left. apply comparePre_lt in Hc as [[Ha Hb]|(Ha & Hb & Hlt)].
        -- by apply precedes_release.
        -- by apply precedes_pre.
      * right. apply comparePre_eq in Hc. by apply Version_eq.
    + pose proof (compareMain_range a b) as Hrange.
      assert (Hc : compareMain a b = (-1)%Z) by lia.
      left. apply compareMain_lt in Hc as [?|[[? ?]|(? & ? & ?)]].
      * by apply precedes_major.
      * by apply precedes_minor.
      * by apply precedes_patch.
  - intros [H| ->].
    + rewrite (precedes_compare _ _ H). lia.
    + assert (E1 : compareMain b b = 0%Z) by by apply compareMain_eq.
      assert (E2 : comparePre b b = 0%Z) by by apply comparePre_eq.
      unfold compare, orElse. rewrite E1. cbn. lia.
Qed.

End SemverOrder.

(** ** The comparator on the semantic-version rules *)

Section OnSemver.

Variable decoration : ascii → bool.

Lemma parse_truthy (s : string) (v : Semver.Version) :
  Semver.parse s = Some v → truthy s = true.
Proof. destruct s; [discriminate | reflexivity]. Qed.

Lemma normalize_truthy (s : string) (v : Semver.Version) :
  Semver.parse (Semver.normalize decoration s) = Some v → truthy s = true.
Proof. destruct s; [discriminate | reflexivity]. Qed.

Lemma clean_parsed (s : string) (v : Semver.Version) :
  Semver.parse (Semver.normalize decoration s) = Some v →
  Semver.clean decoration s = Ok (Some (Semver.normalize decoration s)).
Proof. intros H. unfold Semver.clean. by rewrite H. Qed.

(** The answer of the comparator on two texts that clean to versions. *)
Lemma isVersionLowerOrEqual_parsed installed requested vi vr (w : World) :
  Semver.parse (Semver.normalize decoration installed) = Some vi →
  Semver.parse (Semver.normalize decoration requested) = Some vr →
  isVersionLowerOrEqual (Semver.package decoration) installed (Some requested) w
  = (w, Ok (Semver.compare vi vr <=? 0)%Z).
Proof.
  intros Hi Hr.
  rewrite isVersionLowerOrEqual_cases by by eapply normalize_truthy.
  cbn [Semver.package clean lte Semver.cleanValue].
  rewrite (clean_parsed _ _ Hi), (clean_parsed _ _ Hr).
  cbn [truthy_opt from_option id].
  rewrite (parse_truthy _ _ Hi), (parse_truthy _ _ Hr). cbn [negb orb].
  unfold Semver.lte. by rewrite Hi, Hr.
Qed.

Lemma clean_unparsed (s : string) :
  Semver.parse (Semver.normalize decoration s) = None →
  Semver.clean decoration s = Ok None.
Proof. intros H. unfold Semver.clean. by rewrite H. Qed.

(** On the rules of the specification the answer is decided by the normal
    forms of the two texts, and nothing is printed. *)
Lemma isVersionLowerOrEqual_normalized (installed requested : string)
    (w : World) :
  isVersionLowerOrEqual (Semver.package decoration) installed (Some requested) w
  = (w, Ok match Semver.parse (Semver.normalize decoration installed),
                 Semver.parse (Semver.normalize decoration requested) with
           | Some vi, Some vr => (Semver.compare vi vr <=? 0)%Z
           | _, _ => false
           end).
Proof.
  destruct (Semver.parse (Semver.normalize decoration installed)) as [vi|] eqn:Hi,
           (Semver.parse (Semver.normalize decoration requested)) as [vr|] eqn:Hr.
  - by apply isVersionLowerOrEqual_parsed.
  - destruct (truthy requested) eqn:Ht.
    + rewrite isVersionLowerOrEqual_cases by exact Ht.
      cbn [Semver.package clean lte Semver.cleanValue].
      rewrite (clean_parsed _ _ Hi), (clean_unparsed _ Hr).
      cbn [truthy_opt negb orb]. by rewrite orb_true_r.
    + by rewrite isVersionLowerOrEqual_falsy by (cbn [truthy_opt]; exact Ht).
  - destruct (truthy requested) eqn:Ht.
    + rewrite isVersionLowerOrEqual_cases by exact Ht.
      cbn [Semver.package clean lte Semver.cleanValue].
      by rewrite (clean_unparsed _ Hi), (clean_parsed _ _ Hr).
    + by rewrite isVersionLowerOrEqual_falsy by (cbn [truthy_opt]; exact Ht).
  - destruct (truthy requested) eqn:Ht.
    + rewrite isVersionLowerOrEqual_cases by exact Ht.
      cbn [Semver.package clean lte Semver.cleanValue].
      by rewrite (clean_unparsed _ Hi), (clean_unparsed _ Hr).
    + by rewrite isVersionLowerOrEqual_falsy by (cbn [truthy_opt]; exact Ht).
Qed.

(** Leading decoration in front of a text without white space around it
    is dropped. *)
Lemma normalize_strips (operators : string) (c : ascii) (rest : string) :
  all_chars decoration operators = true →
  decoration c = false →
  trim (operators +:+ String c rest) = operators +:+ String c rest →
  Semver.normalize decoration (operators +:+ String c rest) = String c rest.
Proof.
  intros Hops Hc Ht. unfold Semver.normalize. rewrite Ht. clear Ht.
  induction operators as [|a operators IH].
  - rewrite append_nil. cbn [Semver.undecorate]. by rewrite Hc.
  - cbn [all_chars] in Hops. apply andb_true_iff in Hops as [Ha Hops].
    rewrite append_cons. cbn [Semver.undecorate]. rewrite Ha. by apply IH.
Qed.

(** A text that starts with a character that is no decoration and has no
    white space around it is its own normal form. *)
Lemma normalize_id (c : ascii) (rest : string) :
  decoration c = false →
  trim (String c rest) = String c rest →
  Semver.normalize decoration (String c rest) = String c rest.
Proof.
  intros Hd Ht. unfold Semver.normalize. rewrite Ht.
  cbn [Semver.undecorate]. by rewrite Hd.
Qed.

End OnSemver.

(** C2. With a threshold, when both texts clean to valid semantic versions,
    the comparator answers true exactly when the installed version has
    lower or the same precedence as the requested one: major, then minor,
    then patch, then the pre-release identifiers.  Equal versions count:
    [1.0.0] against [1.0.0] is true, [2.0.0] against [1.9.9] is false,
    [1.0.0] against [1.0.1] is true. *)
Theorem isVersionLowerOrEqual_semver_order (decoration : ascii → bool) :
  (∀ installed requested vi vr w,
     Semver.parse (Semver.normalize decoration installed) = Some vi →
     Semver.parse (Semver.normalize decoration requested) = Some vr →
     ∃ b, isVersionLowerOrEqual (Semver.package decoration)
            installed (Some requested) w = (w, Ok b)
          ∧ (b = true ↔ Semver.le vi vr))
  ∧ ((∀ c, Semver.is_digit c = true → decoration c = false) →
     ∀ w,
       isVersionLowerOrEqual (Semver.package decoration) "1.0.0" (Some "1.0.0") w
       = (w, Ok true)
       ∧ isVersionLowerOrEqual (Semver.package decoration) "2.0.0" (Some "1.9.9") w
         = (w, Ok false)
       ∧ isVersionLowerOrEqual (Semver.package decoration) "1.0.0" (Some "1.0.1") w
         = (w, Ok true)).
Proof.
  split.
  - intros installed requested vi vr w Hi Hr.
    exists (Semver.compare vi vr <=? 0)%Z. split.
    + by apply isVersionLowerOrEqual_parsed.
    + rewrite Z.leb_le. apply SemverOrder.compare_le.
  - intros Hdigit w.
    assert (H1 : decoration "1"%char = false) by by apply Hdigit.
    assert (H2 : decoration "2"%char = false) by by apply Hdigit.
    assert (N100 : Semver.normalize decoration "1.0.0" = "1.0.0")
      by by apply normalize_id.
    assert (N200 : Semver.normalize decoration "2.0.0" = "2.0.0")
      by by apply normalize_id.
    assert (N199 : Semver.normalize decoration "1.9.9" = "1.9.9")
      by by apply normalize_id.
    assert (N101 : Semver.normalize decoration "1.0.1" = "1.0.1")
      by by apply normalize_id.
    repeat apply conj.
    + erewrite isVersionLowerOrEqual_parsed;
        [|rewrite N100; reflexivity|rewrite N100; reflexivity]. reflexivity.
    + erewrite isVersionLowerOrEqual_parsed;
        [|rewrite N200; reflexivity|rewrite N199; reflexivity]. reflexivity.
    + erewrite isVersionLowerOrEqual_parsed;
        [|rewrite N100; reflexivity|rewrite N101; reflexivity]. reflexivity.
Qed.

Lemma isVersionLowerOrEqual_semver_order_witness :
  Semver.parse (Semver.normalize is_range_operator " 1.2.3-alpha.1 ")
  = Some (Semver.mkVersion 1 2 3 [Semver.Alphanumeric "alpha"; Semver.Numeric 1])
  ∧ Semver.parse (Semver.normalize is_range_operator "=1.2.3")
    = Some (Semver.mkVersion 1 2 3 [])
  ∧ (∃ b, isVersionLowerOrEqual (Semver.package is_range_operator)
            " 1.2.3-alpha.1 " (Some "=1.2.3") World0 = (World0, Ok b)
          ∧ (b = true
             ↔ Semver.le
                 (Semver.mkVersion 1 2 3 [Semver.Alphanumeric "alpha"; Semver.Numeric 1])
                 (Semver.mkVersion 1 2 3 [])))
  ∧ (∀ c, Semver.is_digit c = true → is_range_operator c = false)
  ∧ isVersionLowerOrEqual (Semver.package is_range_operator)
      "2.0.0" (Some "1.9.9") World0 = (World0, Ok false).
Proof.
  assert (Hdigit : ∀ c, Semver.is_digit c = true → is_range_operator c = false).
  { intros [[] [] [] [] [] [] [] []]; cbv; intros H;
      first [reflexivity | discriminate H]. }
  split; [reflexivity|]. split; [reflexivity|]. split.
  { exact (proj1 (isVersionLowerOrEqual_semver_order is_range_operator)
             " 1.2.3-alpha.1 " "=1.2.3" _ _ World0 eq_refl eq_refl). }
  split; [exact Hdigit|].
  exact (proj1 (proj2 (proj2 (isVersionLowerOrEqual_semver_order is_range_operator)
                         Hdigit World0))).
Defined.

Lemma isVersionLowerOrEqual_warning_witness :
  truthy "1.0.0" = true
  ∧ clean (Semver.package is_range_operator) "not-a-version" = Ok None
  ∧ clean (Semver.package is_range_operator) "1.0.0" = Ok (Some "1.0.0")
  ∧ isVersionLowerOrEqual (Semver.package is_range_operator)
      "not-a-version" (Some "1.0.0") World0 = (World0, Ok false).
Proof.
  split; [reflexivity|]. split; [reflexivity|]. split; [reflexivity|].
  exact (proj1 (isVersionLowerOrEqual_warning
                  (Semver.package is_range_operator)
                  "not-a-version" "1.0.0" World0 eq_refl)
           None (Some "1.0.0") eq_refl eq_refl (or_introl eq_refl)).
Defined.

(** C1, as amended. With a threshold, both texts are normalized: the white
    space around them and their leading decoration, the range operators
    [^], [~], [>], [=], [<] for one, are stripped, and the answer is decided
    by the two normal forms.  When either normal form is no valid semantic
    version the comparator answers false; it raises no error and prints no
    warning. *)
Theorem isVersionLowerOrEqual_unparsable (decoration : ascii → bool)
    (installed required : string) (w : World) :
  let semver := Semver.package decoration in
  let normalized := Semver.normalize decoration in
  (∀ operators c rest,
     all_chars decoration operators = true →
     decoration c = false →
     trim (operators +:+ String c rest) = operators +:+ String c rest →
     normalized (operators +:+ String c rest) = String c rest)
  ∧ (∀ installed' required' : string,
       normalized installed' = normalized installed →
       normalized required' = normalized required →
       isVersionLowerOrEqual semver installed' (Some required') w
       = isVersionLowerOrEqual semver installed (Some required) w)
  ∧ (Semver.parse (normalized installed) = None
     ∨ Semver.parse (normalized required) = None →
     isVersionLowerOrEqual semver installed (Some required) w = (w, Ok false))
  ∧ (∃ b, isVersionLowerOrEqual semver installed (Some required) w
          = (w, Ok b)).
Proof.
  intros semver normalized. subst semver normalized. repeat apply conj.
  - intros operators c rest. apply normalize_strips.
  - intros installed' required' Hi Hr.
    by rewrite !isVersionLowerOrEqual_normalized, Hi, Hr.
  - intros H. rewrite isVersionLowerOrEqual_normalized.
    destruct H as [-> | ->]; [reflexivity|].
    by destruct (Semver.parse (Semver.normalize decoration installed)).
  - eexists. apply isVersionLowerOrEqual_normalized.
Qed.

Lemma isVersionLowerOrEqual_unparsable_witness :
  all_chars is_range_operator "^~" = true
  ∧ is_range_operator "1" = false
  ∧ trim "^~1.2.3" = "^~1.2.3"
  ∧ Semver.normalize is_range_operator "^~1.2.3" = "1.2.3"
  ∧ Semver.normalize is_range_operator ">=1.0.0"
    = Semver.normalize is_range_operator " 1.0.0 "
  ∧ isVersionLowerOrEqual (Semver.package is_range_operator)
      ">=1.0.0" (Some "^1.0.1") World0
    = isVersionLowerOrEqual (Semver.package is_range_operator)
        " 1.0.0 " (Some "1.0.1") World0
  ∧ Semver.parse (Semver.normalize is_range_operator "^not-a-version") = None
  ∧ isVersionLowerOrEqual (Semver.package is_range_operator)
      "^not-a-version" (Some "1.0.0") World0 = (World0, Ok false).
Proof.
  split; [reflexivity|]. split; [reflexivity|]. split; [reflexivity|].
  split.
  { exact (proj1 (isVersionLowerOrEqual_unparsable is_range_operator
                    "1.0.0" "1.0.0" World0)
             "^~" "1"%char ".2.3" eq_refl eq_refl eq_refl). }
  split; [reflexivity|]. split.
  { exact (proj1 (proj2 (isVersionLowerOrEqual_unparsable is_range_operator
                           " 1.0.0 " "1.0.1" World0))
             ">=1.0.0" "^1.0.1" eq_refl eq_refl). }
  split; [reflexivity|].
  exact (proj1 (proj2 (proj2 (isVersionLowerOrEqual_unparsable is_range_operator
                                "^not-a-version" "1.0.0" World0)))
           (or_introl eq_refl)).
Defined.

(** C1, as stated, fails: the installed text is no semantic version, the
    comparator answers false, and no warning is printed. *)
Lemma isVersionLowerOrEqual_counterexample :
  let semver := Semver.package is_range_operator in
  let answer := isVersionLowerOrEqual semver "not-a-version" (Some "1.0.0") World0 in
  clean semver "not-a-version" = Ok None
  ∧ snd answer = Ok false
  ∧ console (fst answer) = []
  ∧ ¬ ∃ line, (Warn, line) ∈ console (fst answer).
Proof.
  cbn zeta. repeat apply conj; try reflexivity.
  intros [line H]. vm_compute in H. inversion H.
Qed.

(** ** Loading the project *)

Section Loader.

Variable node : Node.
Variable projectPath : string.

Let packageJsonPath := path_join node projectPath "package.json".
Let packageLockPath := path_join node projectPath "package-lock.json".

Lemma seedManifest_entries packageJson (packages : gmap string string) :
  seedManifest packageJson packages
  = Object_assign packages (manifestEntries packageJson).
Proof.
  unfold seedManifest, manifestEntries, depTypes. cbn [fold_left flat_map].
  rewrite app_nil_r, !Object_assign_app.
  by destruct (depsOf packageJson "dependencies"),
              (depsOf packageJson "devDependencies"),
              (depsOf packageJson "peerDependencies").
Qed.

(** After the manifest was read, a name other than [__proto__] holds the
    range that the manifest declares for it, or what it held before. *)
Lemma seedManifest_declared packageJson (packages : gmap string string) name :
  name ≠ "__proto__" →
  seedManifest packageJson packages !! name
  = match declared packageJson name with
    | Some range => Some range
    | None => packages !! name
    end.
Proof.
  intros Hname. unfold seedManifest, depTypes, declared. cbn [fold_left].
  destruct (depsOf packageJson "peerDependencies") as [peer|];
    destruct (depsOf packageJson "devDependencies") as [dev|];
    destruct (depsOf packageJson "dependencies") as [deps|];
    cbn [default from_option id declaredIn];
    rewrite ?Object_assign_declared by exact Hname;
    repeat match goal with
           | |- context [declaredIn ?l name] => destruct (declaredIn l name)
           end;
    reflexivity.
Qed.

Lemma seedManifest_proto packageJson (packages : gmap string string) :
  seedManifest packageJson packages !! "__proto__" = packages !! "__proto__".
Proof. by rewrite seedManifest_entries, Object_assign_proto. Qed.

Lemma fold_collectPackage entries (packages : gmap string string) :
  fold_left collectPackage entries packages
  = Object_assign packages (flat_map topLevel entries).
Proof.
  revert packages. induction entries as [|e rest IH]; intros packages;
    [reflexivity|].
  cbn [fold_left flat_map].
  by rewrite Object_assign_app, <- collectPackage_topLevel, IH.
Qed.

Lemma readLock_entries packageLock (packages : gmap string string) :
  readLock packageLock packages
  = Object_assign packages (lockEntries packageLock).
Proof.
  unfold readLock, lockEntries. rewrite Object_assign_app.
  destruct (lock_dependencies packageLock) as [deps|].
  - rewrite collectAllDependencies_visit.
    destruct (lock_packages packageLock);
      [apply fold_collectPackage | reflexivity].
  - destruct (lock_packages packageLock);
      [apply fold_collectPackage | reflexivity].
Qed.



Lemma loadProjectPackages_with_lock text packageJson lockText packageLock
    (w : World) :
  existsSync node packageJsonPath = true →
  readFileSync node packageJsonPath = Ok text →
  parsePackageJson node text = Ok packageJson →
  existsSync node packageLockPath = true →
  readFileSync node packageLockPath = Ok lockText →
  parsePackageLock node lockText = Ok packageLock →
  loadProjectPackages node projectPath w
  = (say w Log "package-lock.json からも依存関係を読み込みました",
     Ok (readLock packageLock (seedManifest packageJson ∅))).
Proof.
  intros He Hr Hp Hl Hlr Hlp. unfold loadProjectPackages.
  fold packageJsonPath packageLockPath. rewrite He, Hl. cbn [negb].
  unfold tryCatch, bind, lift. by rewrite Hr, Hp, Hlr, Hlp.
Qed.

(** Loading the project writes no file, and its answer does not depend
    on what was printed before. *)
Lemma loadProjectPackages_frame (w : World) :
  written (fst (loadProjectPackages node projectPath w)) = written w
  ∧ snd (loadProjectPackages node projectPath w)
    = snd (loadProjectPackages node projectPath World0).
Proof.
  unfold loadProjectPackages. fold packageJsonPath packageLockPath.
  destruct (existsSync node packageJsonPath); cbn [negb]; [|done].
  unfold tryCatch, bind, lift, throw, ret, print.
  destruct (readFileSync node packageJsonPath) as [text|]; [|done].
  destruct (parsePackageJson node text) as [packageJson|]; [|done].
  destruct (existsSync node packageLockPath); [|done].
  destruct (readFileSync node packageLockPath) as [lockText|]; [|done].
  destruct (parsePackageLock node lockText); done.
Qed.

End Loader.

(** ** The run *)

Section Run.

Variable semver : SemverLib.
Variable node : Node.

Lemma print_run (l : Level) (line : string) (w : World) :
  print l line w = (say w l line, Ok tt).
Proof. reflexivity. Qed.

Lemma loadPackageList_value (listFilePath : string) (w : World) :
  loadPackageList node listFilePath w
  = (w, snd (loadPackageList node listFilePath World0)).
Proof.
  unfold loadPackageList. destruct (existsSync node listFilePath); cbn [negb].
  - unfold bind, lift. by destruct (readFileSync node listFilePath).
  - reflexivity.
Qed.

Lemma inherited_spec (name : string) :
  inherited name = true ↔ name ∈ objectPrototype.
Proof.
  unfold inherited. rewrite existsb_exists. split.
  - intros (member & Hin & ->%String.eqb_eq). by apply list_elem_of_In.
  - intros Hin. exists name. split; [by apply list_elem_of_In|].
    apply String.eqb_refl.
Qed.

(** A read gives nothing exactly for a name that is neither stored nor a
    member of [Object.prototype]. *)
Lemma getProperty_None (projectPackages : gmap string string) (name : string) :
  getProperty projectPackages name = None
  ↔ projectPackages !! name = None ∧ name ∉ objectPrototype.
Proof.
  unfold getProperty. rewrite <- inherited_spec.
  destruct (projectPackages !! name); [split; [discriminate | by intros [? _]]|].
  destruct (inherited name); split; try done.
  intros [_ H]. by destruct H.
Qed.

(** A watch entry whose name is neither in the map nor a member of
    [Object.prototype] leaves everything as it is. *)
Lemma checkPackage_absent projectPackages results listPackage (w : World) :
  getProperty projectPackages (packageName listPackage) = None →
  checkPackage semver projectPackages results listPackage w = (w, Ok results).
Proof. intros H. unfold checkPackage. by rewrite H. Qed.

Lemma checkPackages_absent projectPackages packageList results (w : World) :
  (∀ e, e ∈ packageList → getProperty projectPackages (packageName e) = None) →
  checkPackages semver projectPackages packageList results w = (w, Ok results).
Proof.
  induction packageList as [|e rest IH]; intros H; [reflexivity|].
  cbn [checkPackages]. unfold bind.
  rewrite checkPackage_absent by (apply H; left).
  apply IH. intros e' He'. apply H. by right.
Qed.

Lemma writeResultsToCSV_empty (outputPath : string) (w : World) :
  writeResultsToCSV node [] outputPath w
  = (say w Log "検出されたパッケージがありません。", Ok tt).
Proof. reflexivity. Qed.


(** The run in which no watch entry is found ends with status 0 and
    writes nothing. *)
Lemma main_no_match (args : list string) (w : World)
    packageList projectPackages :
  (2 ≤ length args)%nat →
  snd (loadPackageList node (nth 0 args "") World0) = Ok packageList →
  snd (loadProjectPackages node (nth 1 args "") World0) = Ok projectPackages →
  (∀ e, e ∈ packageList → getProperty projectPackages (packageName e) = None) →
  snd (main semver node args w) = 0%Z
  ∧ written (fst (main semver node args w)) = written w.
Proof.
  intros Hargs Hlist Hproject Habsent. unfold main.
  destruct (Nat.ltb_spec (length args) 2) as [|_]; [lia|].
  unfold audit, bind. rewrite !print_run.
  rewrite loadPackageList_value, Hlist, print_run.
  match goal with
  | |- context [loadProjectPackages node ?p ?w0] =>
      destruct (loadProjectPackages_frame node p w0) as [Hw Hv];
      destruct (loadProjectPackages node p w0) as [w1 r]
  end.
  cbn [fst snd] in Hw, Hv. rewrite Hv, Hproject, print_run.
  rewrite checkPackages_absent by exact Habsent.
  rewrite writeResultsToCSV_empty, !print_run.
  cbn [fst snd say written]. by rewrite Hw.
Qed.

End Run.



(** C8. The map is built from the manifest first ([dependencies], then
    [devDependencies], then [peerDependencies]) and the entries of the
    lockfile are written after them: where a name occurs in both, the value
    of the lockfile is the one in the answer. *)
Theorem loadProjectPackages_lock_over_manifest (node : Node)
    (projectPath text lockText : string)
    (packageJson : PackageJson) (packageLock : PackageLock) (w : World) :
  let packageJsonPath := path_join node projectPath "package.json" in
  let packageLockPath := path_join node projectPath "package-lock.json" in
  existsSync node packageJsonPath = true →
  readFileSync node packageJsonPath = Ok text →
  parsePackageJson node text = Ok packageJson →
  existsSync node packageLockPath = true →
  readFileSync node packageLockPath = Ok lockText →
  parsePackageLock node lockText = Ok packageLock →
  ∃ w' packages,
    loadProjectPackages node projectPath w = (w', Ok packages)
    ∧ packages
      = Object_assign (Object_assign ∅ (manifestEntries packageJson))
          (lockEntries packageLock)
    ∧ packages
      = Object_assign ∅ (lockEntries packageLock)
        ∪ Object_assign ∅ (manifestEntries packageJson)
    ∧ (∀ name ver,
         Object_assign ∅ (lockEntries packageLock) !! name = Some ver →
         packages !! name = Some ver)
    ∧ (∀ name,
         name ∉ (lockEntries packageLock).*1 →
         packages !! name
         = Object_assign ∅ (manifestEntries packageJson) !! name).
Proof.
  intros packageJsonPath packageLockPath He Hr Hp Hl Hlr Hlp.
  eexists _, _. split.
  { by eapply loadProjectPackages_with_lock. }
  rewrite readLock_entries, seedManifest_entries.
  split; [reflexivity|]. split; [apply Object_assign_union|]. split.
  - intros name ver H. rewrite Object_assign_union.
    by apply lookup_union_Some_l.
  - intros name H. by apply Object_assign_absent.
Qed.

Lemma loadProjectPackages_lock_over_manifest_witness :
  let node := sampleNode "react" true true in
  existsSync node "proj/package.json" = true
  ∧ existsSync node "proj/package-lock.json" = true
  ∧ ∃ w' packages,
      loadProjectPackages node "proj" World0 = (w', Ok packages)
      ∧ packages !! "lodash" = Some "4.17.21"
      ∧ packages !! "react" = Some "18.2.0".
Proof.
  intros node. split; [reflexivity|]. split; [reflexivity|].
  destruct (loadProjectPackages_lock_over_manifest node "proj"
              "proj/package.json" "proj/package-lock.json"
              samplePackageJson samplePackageLock World0
              eq_refl eq_refl eq_refl eq_refl eq_refl eq_refl)
    as (w' & packages & Hload & Hpackages & _).
  exists w', packages. split; [exact Hload|].
  rewrite Hpackages. split; reflexivity.
Defined.

(** C9. The code at the failing input.  The watch-list holds the one line
    [constructor]; the manifest declares [lodash] and [react] and there is
    no lockfile, so the name is absent from the map of resolved packages.
    The read of line 236 finds the function that every object inherits
    under that name, which is truthy: a match record is made and the report
    is written, where the claim has no record and no file. *)
Theorem absent_entries_prototype_member :
  let node := sampleNode "constructor" true false in
  let semver := Semver.package is_range_operator in
  let run := main semver node ["packages.txt"; "proj"] World0 in
  snd (loadPackageList node "packages.txt" World0)
  = Ok [{| packageName := "constructor"; version := None |}]
  ∧ (∃ w' projectPackages,
       loadProjectPackages node "proj" World0 = (w', Ok projectPackages)
       ∧ projectPackages !! "constructor" = None
       ∧ dom projectPackages = {["lodash"; "react"]})
  ∧ snd run = 0%Z
  ∧ written (fst run)
    = [("result.csv",
        join (String "010" "")
          ["パッケージ名,バージョン,警告";
           "constructor,function Object() { [native code] },"])].
Proof.
  cbn zeta. split; [reflexivity|]. split; [|split; reflexivity].
  eexists _, _. split; [reflexivity|]. split; [reflexivity|].
  apply set_eq. intros name. rewrite elem_of_dom.
  set_unfold. split.
  - intros [ver H]. destruct (decide (name = "lodash")) as [->|Hl]; [by left|].
    destruct (decide (name = "react")) as [->|Hr]; [by right|].
    exfalso. revert H. cbn. rewrite !lookup_insert_ne by done.
    by rewrite lookup_empty.
  - intros [-> | ->]; eexists; reflexivity.
Qed.

(** X21. A watch entry whose name is neither in the map of resolved
    packages nor a member of [Object.prototype] gives no match record and no
    error.  With an empty list of match records the report writer writes no
    file: it prints one informational line and that is all; a run in which
    every watch entry is of that kind ends with status 0 and writes
    nothing. *)
Theorem unknown_entries_no_report :
  (∀ semver projectPackages results listPackage w,
     projectPackages !! packageName listPackage = None →
     packageName listPackage ∉ objectPrototype →
     checkPackage semver projectPackages results listPackage w = (w, Ok results))
  ∧ (∀ node outputPath w,
       writeResultsToCSV node [] outputPath w
       = ({| console := console w ++ [(Log, "検出されたパッケージがありません。")];
             written := written w |}, Ok tt))
  ∧ (∀ semver node args w packageList projectPackages,
       (2 ≤ length args)%nat →
       snd (loadPackageList node (nth 0 args "") World0) = Ok packageList →
       snd (loadProjectPackages node (nth 1 args "") World0) = Ok projectPackages →
       (∀ e, e ∈ packageList →
             projectPackages !! packageName e = None
             ∧ packageName e ∉ objectPrototype) →
       snd (main semver node args w) = 0%Z
       ∧ written (fst (main semver node args w)) = written w).
Proof.
  split; [|split].
  - intros. apply checkPackage_absent. by apply getProperty_None.
  - intros. apply writeResultsToCSV_empty.
  - intros semver node args w packageList projectPackages Hargs Hlist Hproject H.
    eapply main_no_match; [exact Hargs | exact Hlist | exact Hproject|].
    intros e He. apply getProperty_None. by apply H.
Qed.

Lemma unknown_entries_no_report_witness :
  let node := sampleNode "left-pad@1.3.0" true false in
  let semver := Semver.package is_range_operator in
  snd (loadPackageList node "packages.txt" World0)
  = Ok [{| packageName := "left-pad"; version := Some "1.3.0" |}]
  ∧ snd (main semver node ["packages.txt"; "proj"] World0) = 0%Z
  ∧ written (fst (main semver node ["packages.txt"; "proj"] World0)) = [].
Proof.
  intros node semver. split; [reflexivity|].
  refine (proj2 (proj2 unknown_entries_no_report) semver node
            ["packages.txt"; "proj"] World0
            [{| packageName := "left-pad"; version := Some "1.3.0" |}]
            (Object_assign ∅ [("lodash", "4.17.20"); ("react", "18.2.0")])
            _ eq_refl eq_refl _).
  - cbn. lia.
  - intros e He. apply list_elem_of_singleton in He as ->.
    split; [reflexivity|]. cbn [packageName].
    intros H%inherited_spec. discriminate H.
Defined.

(** The example of the specification, end to end: the watch-list
    [lodash@4.17.21], [react] against a manifest with [lodash] at [4.17.20]
    and [react] at [18.2.0], without a lockfile, gives a report of two
    rows, the first of them with the warning mark. *)
Example audit_end_to_end :
  let watchList := "lodash@4.17.21" +:+ String "010" "react" in
  let run := main (Semver.package is_range_operator)
                  (sampleNode watchList true false)
                  ["packages.txt"; "proj"] World0 in
  snd run = 0%Z
  ∧ written (fst run)
    = [("result.csv",
        join (String "010" "")
          ["パッケージ名,バージョン,警告"; "lodash,4.17.20,×"; "react,18.2.0,"])].
Proof. split; reflexivity. Qed.

(** * Further properties *)

(** ** More on strings *)

Section MoreStringFacts.

Lemma split_never_empty (c : ascii) (s : string) : split c s ≠ [].
Proof.
  induction s as [|a s IH]; simpl; [discriminate|].
  destruct (Ascii.eqb a c); [discriminate|].
  destruct (split c s); [congruence | discriminate].
Qed.

Lemma split_length (c : ascii) (s : string) :
  length (split c s) = S (countChar c s).
Proof.
  induction s as [|a s IH]; [reflexivity|].
  cbn [split countChar]. destruct (Ascii.eqb a c).
  - cbn [length]. by rewrite IH.
  - destruct (split c s) as [|seg segs] eqn:E; [by apply split_never_empty in E|].
    cbn [length] in *. lia.
Qed.

Lemma countChar_occurs (c : ascii) (s : string) :
  countChar c s = 0 ↔ occurs c s = false.
Proof.
  induction s as [|a s IH]; [done|].
  cbn [countChar occurs]. destruct (Ascii.eqb a c); cbn [orb]; [|exact IH].
  split; [lia | discriminate].
Qed.

(** No segment of a split holds the separator. *)
Lemma split_segments (c : ascii) (s : string) :
  Forall (λ seg, occurs c seg = false) (split c s).
Proof.
  induction s as [|a s IH]; [by repeat constructor|].
  cbn [split]. destruct (Ascii.eqb a c) eqn:Hac.
  - by constructor.
  - destruct (split c s) as [|seg segs].
    { constructor; [|constructor]. cbn [occurs]. by rewrite Hac. }
    apply Forall_cons in IH as [Hseg Hsegs]. constructor; [|exact Hsegs].
    cbn [occurs]. by rewrite Hac, Hseg.
Qed.

Lemma join_cons (sep p q : string) rest :
  join sep (p :: q :: rest) = p +:+ sep +:+ join sep (q :: rest).
Proof. reflexivity. Qed.

Lemma join_cons_char (sep : string) (a : ascii) (seg : string) segs :
  join sep (String a seg :: segs) = String a (join sep (seg :: segs)).
Proof. destruct segs; reflexivity. Qed.

(** Joining the segments of a split with the separator gives the text
    back. *)
Lemma join_split (c : ascii) (s : string) :
  join (String c "") (split c s) = s.
Proof.
  induction s as [|a s IH]; [reflexivity|].
  cbn [split]. destruct (Ascii.eqb_spec a c) as [->|Hne].
  - destruct (split c s) as [|seg segs] eqn:E; [by apply split_never_empty in E|].
    by rewrite join_cons, IH.
  - destruct (split c s) as [|seg segs] eqn:E; [by apply split_never_empty in E|].
    by rewrite join_cons_char, IH.
Qed.

Lemma split_append (c : ascii) (a b : string) :
  split c (a +:+ String c b) = (split c a ++ split c b)%list.
Proof.
  induction a as [|x a IH].
  - rewrite append_nil. cbn [split]. by rewrite Ascii.eqb_refl.
  - rewrite append_cons. cbn [split]. rewrite IH.
    destruct (Ascii.eqb x c); [reflexivity|].
    destruct (split c a) as [|seg segs] eqn:E; [by apply split_never_empty in E|].
    reflexivity.
Qed.

(** Splitting the join of lines that hold no separator gives the lines
    back. *)
Lemma split_join (c : ascii) (lines : list string) :
  lines ≠ [] →
  Forall (λ line, occurs c line = false) lines →
  split c (join (String c "") lines) = lines.
Proof.
  induction lines as [|line rest IH]; [done|]. intros _ Hall.
  apply Forall_cons in Hall as [Hline Hrest].
  destruct rest as [|next rest].
  - cbn [join]. by apply split_absent.
  - rewrite join_cons. change (String c "" +:+ ?x) with (String c x).
    rewrite split_app by exact Hline. f_equal. by apply IH.
Qed.

Lemma occurs_append (c : ascii) (a b : string) :
  occurs c (a +:+ b) = occurs c a || occurs c b.
Proof.
  induction a as [|x a IH]; [reflexivity|].
  rewrite append_cons. cbn [occurs]. by rewrite IH, orb_assoc.
Qed.

Lemma append_assoc (a b c : string) : (a +:+ b) +:+ c = a +:+ (b +:+ c).
Proof.
  induction a as [|x a IH]; [reflexivity|]. rewrite !append_cons. by rewrite IH.
Qed.

Lemma append_empty_r (a : string) : a +:+ "" = a.
Proof.
  induction a as [|x a IH]; [reflexivity|]. rewrite append_cons. by rewrite IH.
Qed.

(** *** [trim] *)

Lemma trimStart_unfold (s : string) :
  trimStart s
  = match stripSpace s with
    | Some rest => trimStart rest
    | None => s
    end.
Proof.
  destruct s as [|a [|b [|c s]]]; cbn [trimStart stripSpace]; try reflexivity.
  - by destruct (is_whitespace a).
  - destruct (is_whitespace a); [reflexivity|].
    by destruct (is_whitespace2 a b).
  - destruct (is_whitespace a); [reflexivity|].
    destruct (is_whitespace2 a b); [reflexivity|].
    by destruct (is_whitespace3 a b c).
Qed.

Lemma stripSpace_length (s rest : string) :
  stripSpace s = Some rest → (String.length rest < String.length s)%nat.
Proof.
  destruct s as [|a [|b [|c s]]]; cbn [stripSpace]; try discriminate.
  - destruct (is_whitespace a); intros [= <-]. cbn. lia.
  - destruct (is_whitespace a); [intros [= <-]; cbn; lia|].
    destruct (is_whitespace2 a b); intros [= <-]. cbn. lia.
  - destruct (is_whitespace a); [intros [= <-]; cbn; lia|].
    destruct (is_whitespace2 a b); [intros [= <-]; cbn; lia|].
    destruct (is_whitespace3 a b c); intros [= <-]. cbn. lia.
Qed.

(** A white-space character at the head of a text is one whatever
    follows the text. *)
Lemma stripSpace_append (s rest t : string) :
  stripSpace s = Some rest → stripSpace (s +:+ t) = Some (rest +:+ t).
Proof.
  destruct s as [|a [|b [|c s]]]; rewrite ?append_cons, ?append_nil;
    cbn [stripSpace]; try discriminate.
  - destruct (is_whitespace a); [|discriminate]. by intros [= <-].
  - destruct (is_whitespace a); [by intros [= <-]|].
    destruct (is_whitespace2 a b); [|discriminate]. by intros [= <-].
  - destruct (is_whitespace a); [by intros [= <-]|].
    destruct (is_whitespace2 a b); [by intros [= <-]|].
    destruct (is_whitespace3 a b c); [|discriminate]. by intros [= <-].
Qed.

(** Induction along the characters that [trimStart] removes. *)
Lemma trimStart_ind (P : string → Prop) :
  (∀ s, stripSpace s = None → P s) →
  (∀ s rest, stripSpace s = Some rest → P rest → P s) →
  ∀ s, P s.
Proof.
  intros Hnone Hsome s.
  remember (String.length s) as n eqn:Hn. revert s Hn.
  induction n as [n IH] using lt_wf_ind. intros s ->.
  destruct (stripSpace s) as [rest|] eqn:E; [|by apply Hnone].
  apply (Hsome s rest E).
  apply (IH (String.length rest)); [by apply stripSpace_length | reflexivity].
Qed.

Lemma trimStart_fixed (s : string) : stripSpace (trimStart s) = None.
Proof.
  induction s as [s E|s rest E IH] using trimStart_ind;
    rewrite trimStart_unfold, E; [exact E | exact IH].
Qed.

Lemma trimStart_keeps (s : string) : stripSpace s = None → trimStart s = s.
Proof. intros E. by rewrite trimStart_unfold, E. Qed.

Lemma blank_true (s : string) : blank s = true ↔ trimStart s = "".
Proof. unfold blank. destruct (trimStart s); split; done. Qed.

(** White space in front of a text is removed with it. *)
Lemma trimStart_blank_append (p t : string) :
  blank p = true → trimStart (p +:+ t) = trimStart t.
Proof.
  induction p as [p E|p rest E IH] using trimStart_ind; intros Hp.
  - apply blank_true in Hp. rewrite trimStart_keeps in Hp by exact E.
    by rewrite Hp.
  - rewrite (trimStart_unfold (p +:+ t)), (stripSpace_append _ _ t E).
    apply IH. apply blank_true. apply blank_true in Hp.
    by rewrite trimStart_unfold, E in Hp.
Qed.

Lemma blank_append (p q : string) :
  blank p = true → blank q = true → blank (p +:+ q) = true.
Proof.
  intros Hp Hq. apply blank_true.
  rewrite trimStart_blank_append by exact Hp. by apply blank_true.
Qed.

Lemma trimStart_pad (pad s : string) :
  all_chars is_whitespace pad = true →
  trimStart (pad +:+ s) = trimStart s.
Proof.
  induction pad as [|a pad IH]; [done|].
  cbn [all_chars]. intros [Ha Hpad]%andb_true_iff.
  rewrite append_cons. cbn [trimStart]. rewrite Ha. by apply IH.
Qed.

Lemma whitespace_blank (pad : string) :
  all_chars is_whitespace pad = true → blank pad = true.
Proof.
  intros H. apply blank_true.
  rewrite <- (append_empty_r pad). by rewrite trimStart_pad.
Qed.

Lemma is_whitespace2_lead (a b : ascii) :
  is_whitespace2 a b = true → is_lead a = true.
Proof.
  unfold is_whitespace2, is_lead. intros [Ha _]%andb_true_iff.
  rewrite Ha. by destruct (is_whitespace a).
Qed.

Lemma is_whitespace3_lead (a b c : ascii) :
  is_whitespace3 a b c = true → is_lead a = true.
Proof.
  unfold is_whitespace3, is_lead.
  destruct (Ascii.eqb a "225"), (Ascii.eqb a "226"), (Ascii.eqb a "227"),
           (Ascii.eqb a "239");
    cbn [andb orb]; rewrite ?orb_true_r; try reflexivity.
  discriminate.
Qed.

Lemma blank_lead (c : ascii) (s : string) :
  blank (String c s) = true → is_lead c = true.
Proof.
  intros H%blank_true. rewrite trimStart_unfold in H.
  destruct (stripSpace (String c s)) as [rest|] eqn:E; [|discriminate].
  clear H. destruct s as [|b [|d s]]; cbn [stripSpace] in E.
  - unfold is_lead. by destruct (is_whitespace c).
  - destruct (is_whitespace c) eqn:Hc; [unfold is_lead; by rewrite Hc|].
    destruct (is_whitespace2 c b) eqn:H2; [|discriminate].
    by eapply is_whitespace2_lead.
  - destruct (is_whitespace c) eqn:Hc; [unfold is_lead; by rewrite Hc|].
    destruct (is_whitespace2 c b) eqn:H2; [by eapply is_whitespace2_lead|].
    destruct (is_whitespace3 c b d) eqn:H3; [|discriminate].
    by eapply is_whitespace3_lead.
Qed.

(** A first byte is no second or third byte of a white-space character. *)
Lemma is_whitespace2_second (a b : ascii) :
  is_lead b = true → is_whitespace2 a b = false.
Proof.
  unfold is_whitespace2.
  destruct b as [[] [] [] [] [] [] [] []]; try discriminate; intros _;
    cbn; apply andb_false_r.
Qed.

Lemma is_whitespace3_second (a b c : ascii) :
  is_lead b = true → is_whitespace3 a b c = false.
Proof.
  unfold is_whitespace3.
  destruct b as [[] [] [] [] [] [] [] []]; try discriminate; intros _;
    cbn; by rewrite !andb_false_r.
Qed.

Lemma is_whitespace3_third (a b c : ascii) :
  is_lead c = true → is_whitespace3 a b c = false.
Proof.
  unfold is_whitespace3.
  destruct c as [[] [] [] [] [] [] [] []]; try discriminate; intros _;
    cbn; by rewrite !andb_false_r.
Qed.

(** White space behind a text does not complete a white-space character
    at its head. *)
Lemma stripSpace_pad (s pad : string) :
  s ≠ "" → stripSpace s = None →
  blank pad = true →
  stripSpace (s +:+ pad) = None.
Proof.
  intros Hs E Hpad.
  destruct pad as [|p pad]; [by rewrite append_empty_r|].
  apply blank_lead in Hpad.
  destruct s as [|a [|b [|c s]]]; [done|..];
    rewrite ?append_cons, ?append_nil; cbn [stripSpace] in *.
  - destruct (is_whitespace a); [discriminate|].
    rewrite is_whitespace2_second by exact Hpad.
    destruct pad as [|q pad]; [reflexivity|].
    by rewrite is_whitespace3_second.
  - destruct (is_whitespace a); [discriminate|].
    destruct (is_whitespace2 a b); [discriminate|].
    by rewrite is_whitespace3_third.
  - destruct (is_whitespace a); [discriminate|].
    destruct (is_whitespace2 a b); [discriminate|].
    by destruct (is_whitespace3 a b c).
Qed.

Lemma trimStart_append (s pad : string) :
  blank pad = true →
  trimStart s ≠ "" → trimStart (s +:+ pad) = trimStart s +:+ pad.
Proof.
  intros Hpad.
  induction s as [s E|s rest E IH] using trimStart_ind.
  - rewrite (trimStart_keeps s E). intros Hs.
    apply trimStart_keeps. by apply stripSpace_pad.
  - rewrite (trimStart_unfold s), E.
    rewrite (trimStart_unfold (s +:+ pad)), (stripSpace_append _ _ pad E).
    exact IH.
Qed.

Lemma blank_pad (s pad : string) :
  blank pad = true → blank (s +:+ pad) = blank s.
Proof.
  intros Hpad. destruct (blank s) eqn:E.
  - by apply blank_append.
  - unfold blank in *. rewrite trimStart_append; [|exact Hpad|].
    + destruct (trimStart s); [discriminate | reflexivity].
    + intros H. by rewrite H in E.
Qed.

Lemma trimEnd_blank (s : string) : blank s = true → trimEnd s = "".
Proof. intros H. destruct s; [reflexivity|]. cbn [trimEnd]. by rewrite H. Qed.

(** What [trimEnd] removes is white space. *)
Lemma trimEnd_split (s : string) :
  ∃ tail, s = trimEnd s +:+ tail ∧ blank tail = true.
Proof.
  induction s as [|c s (tail & Hs & Htail)]; [by exists ""|].
  cbn [trimEnd]. destruct (blank (String c s)) eqn:E.
  - by exists (String c s).
  - exists tail. split; [|exact Htail]. rewrite append_cons. by f_equal.
Qed.

Lemma trimEnd_idem (s : string) : trimEnd (trimEnd s) = trimEnd s.
Proof.
  induction s as [|c s IH]; [reflexivity|].
  cbn [trimEnd]. destruct (blank (String c s)) eqn:E; [reflexivity|].
  cbn [trimEnd]. rewrite IH.
  destruct (blank (String c (trimEnd s))) eqn:E'; [|reflexivity].
  destruct (trimEnd_split s) as (tail & Hs & Htail).
  pose proof (blank_append _ _ E' Htail) as H.
  rewrite append_cons, <- Hs in H. congruence.
Qed.

Lemma trimEnd_fixed (s : string) :
  stripSpace s = None → stripSpace (trimEnd s) = None.
Proof.
  intros E. destruct (trimEnd_split s) as (tail & Hs & _).
  destruct (stripSpace (trimEnd s)) as [rest|] eqn:E'; [|reflexivity].
  apply (stripSpace_append _ _ tail) in E'. rewrite <- Hs in E'. congruence.
Qed.

Lemma trim_idem (s : string) : trim (trim s) = trim s.
Proof.
  unfold trim.
  rewrite (trimStart_keeps (trimEnd (trimStart s)))
    by apply trimEnd_fixed, trimStart_fixed.
  apply trimEnd_idem.
Qed.

Lemma trimEnd_pad (s pad : string) :
  blank pad = true → trimEnd (s +:+ pad) = trimEnd s.
Proof.
  intros Hpad. induction s as [|a s IH].
  - rewrite append_nil. by apply trimEnd_blank.
  - rewrite append_cons. cbn [trimEnd]. rewrite IH.
    change (String a (s +:+ pad)) with (String a s +:+ pad).
    by rewrite (blank_pad _ _ Hpad).
Qed.

(** White space around a text, of one byte or more, does not change what
    [trim] gives. *)
Lemma trim_blank_pad (before s after : string) :
  blank before = true → blank after = true →
  trim (before +:+ s +:+ after) = trim s.
Proof.
  intros Hb Ha. unfold trim. rewrite (trimStart_blank_append _ _ Hb).
  destruct (trimStart s) as [|c r] eqn:E.
  - rewrite trimStart_blank_append by (by apply blank_true).
    apply blank_true in Ha. by rewrite Ha.
  - rewrite trimStart_append; [|exact Ha|by rewrite E].
    rewrite E. by apply trimEnd_pad.
Qed.

Lemma all_chars_append (p : ascii → bool) (a b : string) :
  all_chars p (a +:+ b) = all_chars p a && all_chars p b.
Proof.
  induction a as [|x a IH]; [reflexivity|].
  rewrite append_cons. cbn [all_chars]. by rewrite IH, andb_assoc.
Qed.

Lemma trim_pad (before s after : string) :
  all_chars is_whitespace before = true →
  all_chars is_whitespace after = true →
  trim (before +:+ s +:+ after) = trim s.
Proof.
  intros Hb Ha. apply trim_blank_pad; by apply whitespace_blank.
Qed.

End MoreStringFacts.

(** ** More on the specifier parser *)

Section MoreParser.

(** The parser looks at the trimmed line only. *)
Lemma parsePackageLine_ext (a b : string) :
  trim a = trim b → parsePackageLine a = parsePackageLine b.
Proof. intros H. unfold parsePackageLine. by rewrite H. Qed.

Lemma parsePackageLine_scoped_cases (rest : string) (line : string) :
  trim line = String "@" rest →
  parsePackageLine line
  = match split "@" rest with
    | [_] => Some {| packageName := trim line; version := None |}
    | [name; ver] =>
        Some {| packageName := String "@" name; version := Some ver |}
    | _ => None
    end.
Proof.
  intros Ht. unfold parsePackageLine. rewrite Ht.
  cbn [truthy negb]. unfold startsWith. cbn [stripPrefix].
  rewrite Ascii.eqb_refl. cbn [split]. rewrite Ascii.eqb_refl.
  destruct (split "@" rest) as [|x [|y [|z more]]]; reflexivity.
Qed.

Lemma parsePackageLine_unscoped_cases (line : string) :
  trim line ≠ "" → startsWith (trim line) "@" = false →
  (occurs "@" (trim line) = false
   ∧ parsePackageLine line
     = Some {| packageName := trim line; version := None |})
  ∨ (∃ name ver,
       trim line = name +:+ String "@" ver ∧ occurs "@" ver = false
       ∧ parsePackageLine line
         = Some {| packageName := name; version := Some ver |}).
Proof.
  intros Hne Hat. destruct (occurs "@" (trim line)) eqn:Hocc.
  - right. apply occurs_last in Hocc as (name & ver & Ht & Hver).
    exists name, ver. repeat split; [exact Ht | exact Hver|].
    by apply parsePackageLine_last_at.
  - left. split; [reflexivity|].
    apply truthy_true in Hne. unfold parsePackageLine. rewrite Hne, Hat.
    cbn [negb]. apply lastIndexOf_absent in Hocc. by rewrite Hocc.
Qed.

(** Every entry that the parser gives: either the whole trimmed line is the
    name, or the trimmed line is the name, an [@] and a version without
    [@]. *)
Lemma parsePackageLine_Some (line : string) (e : WatchEntry) :
  parsePackageLine line = Some e →
  e = {| packageName := trim line; version := None |} ∧ trim line ≠ ""
  ∨ (∃ name ver,
       e = {| packageName := name; version := Some ver |}
       ∧ trim line = name +:+ String "@" ver
       ∧ occurs "@" ver = false
       ∧ name ≠ ""
       ∧ startsWith name "@" = startsWith (trim line) "@").
Proof.
  intros Hparse.
  destruct (trim line) as [|c rest] eqn:Ht.
  { rewrite parsePackageLine_blank in Hparse by exact Ht. discriminate. }
  destruct (Ascii.eqb_spec "@" c) as [<-|Hc].
  - rewrite (parsePackageLine_scoped_cases rest line Ht) in Hparse.
    pose proof (join_split "@" rest) as Hjoin.
    pose proof (split_segments "@" rest) as Hseg.
    destruct (split "@" rest) as [|x [|y [|z more]]]; try discriminate.
    + left. injection Hparse as <-. by rewrite Ht.
    + right. injection Hparse as <-. exists (String "@" x), y.
      apply Forall_cons in Hseg as [_ Hseg].
      apply Forall_cons in Hseg as [Hy _].
      repeat split; [|exact Hy|discriminate].
      rewrite append_cons. f_equal. rewrite <- Hjoin. reflexivity.
  - assert (Hat : startsWith (trim line) "@" = false).
    { rewrite Ht. unfold startsWith. cbn [stripPrefix].
      by destruct (Ascii.eqb_spec "@" c). }
    assert (Hne : trim line ≠ "") by (rewrite Ht; discriminate).
    destruct (parsePackageLine_unscoped_cases line Hne Hat)
      as [[_ H]|(name & ver & Hline & Hver & H)];
      rewrite H in Hparse; injection Hparse as <-.
    + left. by rewrite <- Ht.
    + right. exists name, ver. rewrite <- Ht.
      assert (Hname : name ≠ "").
      { intros ->. rewrite Hline in Hat. discriminate Hat. }
      repeat split; [exact Hline | exact Hver | exact Hname|].
      rewrite Hline. destruct name as [|a name]; [done|].
      rewrite append_cons. unfold startsWith. cbn [stripPrefix].
      by destruct (Ascii.eqb "@" a).
Qed.

End MoreParser.

(** X1. The parser answers null exactly on a blank line and on a line that
    starts with [@] and holds three or more [@]. *)
Theorem parsePackageLine_null_iff (line : string) :
  parsePackageLine line = None
  ↔ trim line = ""
    ∨ (startsWith (trim line) "@" = true
       ∧ (3 ≤ countChar "@" (trim line))%nat).
Proof.
  destruct (trim line) as [|c rest] eqn:Ht.
  { rewrite parsePackageLine_blank by exact Ht. split; auto. }
  destruct (Ascii.eqb_spec "@" c) as [<-|Hc].
  - rewrite (parsePackageLine_scoped_cases rest line Ht).
    pose proof (split_length "@" rest) as Hlen.
    assert (Hstart : startsWith (String "@" rest) "@" = true) by reflexivity.
    cbn [countChar]. rewrite Ascii.eqb_refl.
    destruct (split "@" rest) as [|x [|y [|z more]]]; cbn [length] in Hlen.
    + lia.
    + split; [discriminate|]. intros [H|[_ H]]; [discriminate | lia].
    + split; [discriminate|]. intros [H|[_ H]]; [discriminate | lia].
    + split; [|done]. intros _. right. split; [exact Hstart | lia].
  - assert (Hat : startsWith (trim line) "@" = false).
    { rewrite Ht. unfold startsWith. cbn [stripPrefix].
      by destruct (Ascii.eqb_spec "@" c). }
    assert (Hne : trim line ≠ "") by (rewrite Ht; discriminate).
    destruct (parsePackageLine_unscoped_cases line Hne Hat)
      as [[_ H]|(name & ver & _ & _ & H)]; rewrite H; rewrite Ht in Hat;
      (split; [discriminate|]; intros [E|[E _]]; [discriminate | congruence]).
Qed.

(** X2. An entry that the parser gives has a name that is not empty; the
    name starts with [@] exactly when the trimmed line does; a version, when
    there is one, holds no [@]. *)
Theorem parsePackageLine_entry_shape (line : string) (e : WatchEntry) :
  parsePackageLine line = Some e →
  packageName e ≠ ""
  ∧ startsWith (packageName e) "@" = startsWith (trim line) "@"
  ∧ (∀ ver, version e = Some ver → occurs "@" ver = false).
Proof.
  intros [[-> Hne]|(name & ver & -> & _ & Hver & Hname & Hstart)]%parsePackageLine_Some;
    cbn [packageName version].
  - repeat split; [exact Hne | discriminate].
  - repeat split; [exact Hname | exact Hstart|]. by intros ? [= <-].
Qed.

Lemma parsePackageLine_entry_shape_witness :
  parsePackageLine " @types/node@16.0.0" = Some (mkWatchEntry "@types/node" (Some "16.0.0"))
  ∧ "@types/node" ≠ ""
  ∧ startsWith "@types/node" "@" = startsWith (trim " @types/node@16.0.0") "@"
  ∧ (∀ ver, Some "16.0.0" = Some ver → occurs "@" ver = false).
Proof.
  split; [reflexivity|].
  exact (parsePackageLine_entry_shape " @types/node@16.0.0"
           (mkWatchEntry "@types/node" (Some "16.0.0")) eq_refl).
Defined.

(** X3. Nothing of the trimmed line is lost: with a version, the name, an
    [@] and the version give the trimmed line back; without one, the name is
    the trimmed line. *)
Theorem parsePackageLine_reassemble (line : string) (e : WatchEntry) :
  parsePackageLine line = Some e →
  trim line
  = match version e with
    | Some ver => packageName e +:+ String "@" ver
    | None => packageName e
    end.
Proof.
  intros [[-> _]|(name & ver & -> & Hline & _)]%parsePackageLine_Some;
    cbn [packageName version]; [reflexivity | exact Hline].
Qed.

Lemma parsePackageLine_reassemble_witness :
  parsePackageLine "a@b@1.2.3  " = Some (mkWatchEntry "a@b" (Some "1.2.3"))
  ∧ trim "a@b@1.2.3  " = "a@b" +:+ String "@" "1.2.3".
Proof.
  split; [reflexivity|].
  exact (parsePackageLine_reassemble "a@b@1.2.3  "
           (mkWatchEntry "a@b" (Some "1.2.3")) eq_refl).
Defined.

(** X4. White space in front of a line and behind it, a carriage return
    before the line feed for one, does not change what the parser gives, and
    the parser gives the same for a line and for its trimmed form. *)
Theorem parsePackageLine_padding (before line after : string) :
  all_chars is_whitespace before = true →
  all_chars is_whitespace after = true →
  parsePackageLine (before +:+ line +:+ after) = parsePackageLine line
  ∧ parsePackageLine (trim line) = parsePackageLine line.
Proof.
  intros Hb Ha. split; apply parsePackageLine_ext.
  - by apply trim_pad.
  - apply trim_idem.
Qed.

Lemma parsePackageLine_padding_witness :
  all_chars is_whitespace "  " = true
  ∧ all_chars is_whitespace (String "013" "") = true
  ∧ parsePackageLine ("  " +:+ "react@18.2.0" +:+ String "013" "")
    = parsePackageLine "react@18.2.0".
Proof.
  split; [reflexivity|]. split; [reflexivity|].
  exact (proj1 (parsePackageLine_padding "  " "react@18.2.0" (String "013" "")
                  eq_refl eq_refl)).
Defined.

(** X22. The white space that the parser ignores is that of
    [String.prototype.trim], characters of more than one byte included:
    every WhiteSpace or LineTerminator character is removed at both ends of
    a line, any run of them as well, so a byte order mark at the head of
    the watch-list or a no-break space behind a line changes no entry.
    Other invisible characters, the zero width space U+200B and the next
    line character U+0085 for two, stay in the name. *)
Theorem parsePackageLine_unicode_space :
  (∀ before line after,
     blank before = true → blank after = true →
     parsePackageLine (before +:+ line +:+ after) = parsePackageLine line)
  ∧ Forall (λ space, blank space = true ∧ trim space = "") whiteSpaces
  ∧ (∀ a b, blank a = true → blank b = true → blank (a +:+ b) = true)
  ∧ parsePackageLine (utf8_3 "239" "187" "191" +:+ "lodash@4.17.21"
                      +:+ utf8_2 "194" "160")
    = Some {| packageName := "lodash"; version := Some "4.17.21" |}
  ∧ blank (utf8_3 "226" "128" "139") = false
  ∧ blank (utf8_2 "194" "133") = false
  ∧ parsePackageLine (utf8_3 "226" "128" "139" +:+ "lodash")
    = Some {| packageName := utf8_3 "226" "128" "139" +:+ "lodash";
              version := None |}.
Proof.
  repeat apply conj; try reflexivity.
  - intros before line after Hb Ha. apply parsePackageLine_ext.
    by apply trim_blank_pad.
  - unfold whiteSpaces. repeat constructor.
  - apply blank_append.
Qed.

Lemma parsePackageLine_unicode_space_witness :
  blank (utf8_3 "239" "187" "191") = true
  ∧ blank (String "013" "") = true
  ∧ parsePackageLine (utf8_3 "239" "187" "191" +:+ "react@18.2.0"
                      +:+ String "013" "")
    = parsePackageLine "react@18.2.0".
Proof.
  split; [reflexivity|]. split; [reflexivity|].
  exact (proj1 parsePackageLine_unicode_space
           (utf8_3 "239" "187" "191") "react@18.2.0" (String "013" "")
           eq_refl eq_refl).
Defined.

(** ** More on the watch-list reader *)

Section MoreReader.

Variable node : Node.

Lemma loadPackageList_read (listFilePath content : string) (w : World) :
  existsSync node listFilePath = true →
  readFileSync node listFilePath = Ok content →
  loadPackageList node listFilePath w = (w, Ok (entriesOf content)).
Proof.
  intros He Hr. unfold loadPackageList, bind, lift, ret. by rewrite He, Hr.
Qed.

Lemma loadPackageList_absent (listFilePath : string) (w : World) :
  existsSync node listFilePath = false →
  loadPackageList node listFilePath w
  = (w, Thrown ("パッケージリストファイルが見つかりません: " +:+ listFilePath)).
Proof. intros He. unfold loadPackageList. by rewrite He. Qed.

(** When the watch-list cannot be loaded, the run stops there. *)
Lemma main_list_failure (semver : SemverLib) (args : list string)
    (message : string) (w : World) :
  (2 ≤ length args)%nat →
  snd (loadPackageList node (nth 0 args "") World0) = Thrown message →
  main semver node args w
  = (say (banner w (nth 0 args "") (nth 1 args "") (outputPathOf args))
         Error ("エラー: " +:+ message), 1%Z).
Proof.
  intros Hargs Hlist. unfold main.
  destruct (Nat.ltb_spec (length args) 2) as [|_]; [lia|].
  fold (outputPathOf args). unfold audit, bind. rewrite !print_run.
  by rewrite loadPackageList_value, Hlist.
Qed.

Lemma entriesOf_append (a b : string) :
  entriesOf (a +:+ String "010" b) = (entriesOf a ++ entriesOf b)%list.
Proof. unfold entriesOf. by rewrite split_append, omap_app. Qed.

Lemma split_blank (c : ascii) (s : string) :
  all_chars is_whitespace s = true →
  Forall (λ seg, all_chars is_whitespace seg = true) (split c s).
Proof.
  induction s as [|a s IH]; [by repeat constructor|].
  cbn [all_chars]. intros [Ha Hs]%andb_true_iff. specialize (IH Hs).
  cbn [split]. destruct (Ascii.eqb a c); [by constructor|].
  destruct (split c s) as [|seg segs].
  - constructor; [|constructor]. cbn [all_chars]. by rewrite Ha.
  - apply Forall_cons in IH as [Hseg Hsegs]. constructor; [|exact Hsegs].
    cbn [all_chars]. by rewrite Ha, Hseg.
Qed.

Lemma parsePackageLine_white (line : string) :
  all_chars is_whitespace line = true → parsePackageLine line = None.
Proof.
  intros H. apply parsePackageLine_blank. unfold trim.
  rewrite <- (append_empty_r line), (trimStart_pad _ "" H). reflexivity.
Qed.

Lemma entriesOf_blank (content : string) :
  all_chars is_whitespace content = true → entriesOf content = [].
Proof.
  intros H. unfold entriesOf. pose proof (split_blank "010" content H) as Hsplit.
  induction Hsplit as [|line lines Hline _ IH]; [reflexivity|].
  cbn [omap list_omap]. rewrite (parsePackageLine_white _ Hline). exact IH.
Qed.

Lemma entriesOf_length (content : string) :
  (length (entriesOf content) ≤ S (countChar "010" content))%nat.
Proof.
  unfold entriesOf. rewrite <- split_length.
  generalize (split "010" content). intros lines.
  induction lines as [|line lines IH]; [done|].
  cbn [omap list_omap length]. destruct (parsePackageLine line); cbn [length]; lia.
Qed.

End MoreReader.

(** X5. A missing watch-list file is fatal: the reader throws an error
    whose message names the path, and the run prints that error after its
    banner, ends with status 1, writes nothing and never looks at the
    project. *)
Theorem loadPackageList_missing (node : Node) (listFilePath : string) :
  existsSync node listFilePath = false →
  (∀ w, loadPackageList node listFilePath w
        = (w, Thrown ("パッケージリストファイルが見つかりません: " +:+ listFilePath)))
  ∧ (∀ semver args w,
       (2 ≤ length args)%nat → nth 0 args "" = listFilePath →
       main semver node args w
       = (say (banner w listFilePath (nth 1 args "") (outputPathOf args))
              Error ("エラー: パッケージリストファイルが見つかりません: "
                     +:+ listFilePath), 1%Z)).
Proof.
  intros He. split.
  - intros w. by apply loadPackageList_absent.
  - intros semver args w Hargs <-.
    apply main_list_failure; [exact Hargs|].
    by rewrite loadPackageList_absent.
Qed.

Lemma loadPackageList_missing_witness :
  existsSync (sampleNode "react" true true) "nowhere.txt" = false
  ∧ snd (main (Semver.package is_range_operator) (sampleNode "react" true true)
           ["nowhere.txt"; "proj"] World0) = 1%Z.
Proof.
  split; [reflexivity|].
  exact (f_equal snd
           (proj2 (loadPackageList_missing (sampleNode "react" true true)
                     "nowhere.txt" eq_refl)
              (Semver.package is_range_operator) ["nowhere.txt"; "proj"] World0
              ltac:(cbn; lia) eq_refl)).
Defined.

(** X6. The reader gives the entries of the lines of the file, in the order
    of the lines.  The entries of two texts joined by a line feed are the
    entries of the first followed by those of the second; a text of white
    space only, blank lines or a final line feed, gives no entry; there are
    never more entries than lines. *)
Theorem loadPackageList_lines (node : Node) (listFilePath : string) :
  (∀ content w,
     existsSync node listFilePath = true →
     readFileSync node listFilePath = Ok content →
     loadPackageList node listFilePath w = (w, Ok (entriesOf content)))
  ∧ (∀ a b, entriesOf (a +:+ String "010" b)
            = (entriesOf a ++ entriesOf b)%list)
  ∧ (∀ content, all_chars is_whitespace content = true →
                entriesOf content = [])
  ∧ (∀ content,
       (length (entriesOf content) ≤ S (countChar "010" content))%nat).
Proof.
  repeat apply conj.
  - intros. by apply loadPackageList_read.
  - apply entriesOf_append.
  - apply entriesOf_blank.
  - apply entriesOf_length.
Qed.

Lemma loadPackageList_lines_witness :
  let content := "lodash@4.17.21" +:+ String "010" (String "010" "react") in
  existsSync (sampleNode content true true) "packages.txt" = true
  ∧ readFileSync (sampleNode content true true) "packages.txt" = Ok content
  ∧ loadPackageList (sampleNode content true true) "packages.txt" World0
    = (World0, Ok [mkWatchEntry "lodash" (Some "4.17.21");
                   mkWatchEntry "react" None]).
Proof.
  intros content. split; [reflexivity|]. split; [reflexivity|].
  exact (proj1 (loadPackageList_lines (sampleNode content true true)
                  "packages.txt") content World0 eq_refl eq_refl).
Defined.

(** ** More on the dictionary and the collectors *)

Section MoreCollectors.

Implicit Types (packages : gmap string string)
               (entries : list (string * string)).

(** The names after a list of records was written: the names before, and
    the names of the records other than [__proto__]. *)
Lemma Object_assign_dom packages entries name :
  name ∈ dom (Object_assign packages entries)
  ↔ name ∈ dom packages ∨ (name ≠ "__proto__" ∧ name ∈ entries.*1).
Proof.
  revert packages. induction entries as [|[n v] entries IH]; intros packages.
  - cbn. rewrite elem_of_nil. tauto.
  - rewrite Object_assign_cons, IH, fmap_cons, elem_of_cons. cbn [fst].
    destruct (setProperty_cases packages n v) as [[-> ->]|[Hn ->]].
    + intuition congruence.
    + rewrite dom_insert_L, elem_of_union, elem_of_singleton.
      intuition congruence.
Qed.







(** An entry at any depth that carries a non-empty version is among the
    records of the walk. *)
Lemma reaches_visit dependencies name info ver :
  reaches dependencies name info →
  dep_version info = Some ver → truthy ver = true →
  (name, cleanVersion ver) ∈ visit dependencies.
Proof.
  intros Hreach Hver Htruthy.
  assert (Hself : (name, cleanVersion ver) ∈ visitEntry name info).
  { destruct info as [v d]. cbn [dep_version] in Hver. subst v.
    cbn [visitEntry dep_version]. rewrite Htruthy. apply elem_of_app. left. left. }
  assert (Hin : ∀ (deps : list (string * DepInfo)) n i record,
            (n, i) ∈ deps → record ∈ visitEntry n i → record ∈ visit deps).
  { intros deps n i record Hni Hrecord. unfold visit.
    apply list_elem_of_In, in_flat_map. exists (n, i).
    split; by apply list_elem_of_In. }
  induction Hreach as [deps name info Hhere
                      |deps parent parentInfo nested name info Hparent Hnested _ IH].
  - by eapply Hin.
  - eapply Hin; [exact Hparent|].
    destruct parentInfo as [v d]. cbn [dep_dependencies] in Hnested. subst d.
    cbn [visitEntry dep_dependencies]. apply elem_of_app. right.
    by apply IH.
Qed.

End MoreCollectors.



Lemma seedManifest_dom (packageJson : PackageJson)
    (packages : gmap string string) (name : string) :
  name ∈ dom (seedManifest packageJson packages)
  ↔ name ∈ dom packages
    ∨ (name ≠ "__proto__" ∧ name ∈ (manifestEntries packageJson).*1).
Proof. by rewrite seedManifest_entries, Object_assign_dom. Qed.

(** X8. The collectors only add and overwrite: no name that is in the map
    is ever removed, and the names after the lockfile, or the manifest, was
    collected are the names before together with the names of its records
    other than [__proto__].  Nothing is ever stored under [__proto__]. *)
Theorem collectors_keep_names (packages : gmap string string) :
  (∀ dependencies,
     dom packages ⊆ dom (collectAllDependencies dependencies packages))
  ∧ (∀ entry, dom packages ⊆ dom (collectPackage packages entry))
  ∧ (∀ packageLock name,
       name ∈ dom (readLock packageLock packages)
       ↔ name ∈ dom packages
         ∨ (name ≠ "__proto__" ∧ name ∈ (lockEntries packageLock).*1))
  ∧ (∀ packageJson name,
       name ∈ dom (seedManifest packageJson packages)
       ↔ name ∈ dom packages
         ∨ (name ≠ "__proto__" ∧ name ∈ (manifestEntries packageJson).*1))
  ∧ (∀ packageJson packageLock,
       readLock packageLock (seedManifest packageJson packages) !! "__proto__"
       = packages !! "__proto__").
Proof.
  repeat apply conj.
  - intros [dependencies|]; [|done]. intros name Hname.
    rewrite collectAllDependencies_visit. apply Object_assign_dom. by left.
  - intros entry name Hname.
    rewrite collectPackage_topLevel. apply Object_assign_dom. by left.
  - intros packageLock name. by rewrite readLock_entries, Object_assign_dom.
  - intros packageJson name. apply seedManifest_dom.
  - intros packageJson packageLock.
    by rewrite readLock_entries, seedManifest_entries, !Object_assign_proto.
Qed.

(** X13. A package at any depth of the nested [dependencies] tree that
    carries a non-empty version, under a name other than [__proto__], is a
    name of the map after the walk: its
    version without the leading range operators is one of the writes of the
    walk, and it is the value read back when no later write of the walk has
    the same name. *)
Theorem collectAllDependencies_reaches (dependencies : list (string * DepInfo))
    (packages : gmap string string) (name : string) (info : DepInfo)
    (ver : string) :
  reaches dependencies name info →
  dep_version info = Some ver → truthy ver = true →
  name ≠ "__proto__" →
  is_Some (collectAllDependencies (Some dependencies) packages !! name)
  ∧ (name, cleanVersion ver) ∈ visit dependencies
  ∧ (∀ before after,
       visit dependencies = (before ++ (name, cleanVersion ver) :: after)%list →
       name ∉ after.*1 →
       collectAllDependencies (Some dependencies) packages !! name
       = Some (cleanVersion ver)).
Proof.
  intros Hreach Hver Htruthy Hname.
  pose proof (reaches_visit _ _ _ _ Hreach Hver Htruthy) as Hin.
  split; [|split; [exact Hin|]].
  - apply elem_of_dom. rewrite collectAllDependencies_visit.
    apply Object_assign_dom. right. split; [exact Hname|].
    apply list_elem_of_fmap. by exists (name, cleanVersion ver).
  - intros before after Hvisit Hlast.
    rewrite collectAllDependencies_visit, Hvisit.
    by apply Object_assign_last.
Qed.

Lemma collectAllDependencies_reaches_witness :
  let leaf := mkDepInfo (Some "~2.0.0") None in
  let middle := mkDepInfo None (Some [("c", leaf)]) in
  let dependencies := [("a", mkDepInfo (Some "1.0.0") (Some [("b", middle)]))] in
  reaches dependencies "c" leaf
  ∧ ("c" ≠ "__proto__")
  ∧ is_Some (collectAllDependencies (Some dependencies) ∅ !! "c")
  ∧ collectAllDependencies (Some dependencies) ∅ !! "c" = Some "2.0.0".
Proof.
  intros leaf middle dependencies.
  assert (Hreach : reaches dependencies "c" leaf).
  { eapply reaches_below; [left | reflexivity|].
    eapply reaches_below; [left | reflexivity|].
    apply reaches_here. left. }
  assert (Hname : "c" ≠ "__proto__") by discriminate.
  split; [exact Hreach|]. split; [exact Hname|]. split; [|reflexivity].
  exact (proj1 (collectAllDependencies_reaches dependencies ∅ "c" leaf "~2.0.0"
                  Hreach eq_refl eq_refl Hname)).
Defined.

(** ** More on loading the project *)

Section MoreLoader.

Variable node : Node.
Variable projectPath : string.

Let packageJsonPath := path_join node projectPath "package.json".
Let packageLockPath := path_join node projectPath "package-lock.json".

Lemma loadProjectPackages_lock_throws text packageJson message (w : World) :
  existsSync node packageJsonPath = true →
  readFileSync node packageJsonPath = Ok text →
  parsePackageJson node text = Ok packageJson →
  existsSync node packageLockPath = true →
  readFileSync node packageLockPath = Thrown message
  ∨ (∃ lockText, readFileSync node packageLockPath = Ok lockText
                 ∧ parsePackageLock node lockText = Thrown message) →
  loadProjectPackages node projectPath w
  = (say w Warn ("package-lock.json の読み込みに失敗しました（package.jsonのみ使用）: "
                 +:+ message),
     Ok (seedManifest packageJson ∅)).
Proof.
  intros He Hr Hp Hl Hfail. unfold loadProjectPackages.
  fold packageJsonPath packageLockPath. rewrite He, Hl. cbn [negb].
  unfold tryCatch, bind, lift. rewrite Hr, Hp.
  destruct Hfail as [->|(lockText & -> & ->)]; reflexivity.
Qed.

Lemma loadProjectPackages_manifest_throws message (w : World) :
  existsSync node packageJsonPath = true →
  readFileSync node packageJsonPath = Thrown message
  ∨ (∃ text, readFileSync node packageJsonPath = Ok text
             ∧ parsePackageJson node text = Thrown message) →
  loadProjectPackages node projectPath w
  = (w, Thrown ("パッケージ情報の読み込みに失敗しました: " +:+ message)).
Proof.
  intros He Hfail. unfold loadProjectPackages.
  fold packageJsonPath packageLockPath. rewrite He. cbn [negb].
  unfold tryCatch, bind, lift.
  destruct Hfail as [->|(text & -> & ->)]; reflexivity.
Qed.

End MoreLoader.

Section MoreRun.

Variable semver : SemverLib.
Variable node : Node.

(** When the project cannot be loaded, the run ends with status 1 and
    writes nothing. *)
Lemma main_project_failure (args : list string) (message : string) (w : World) :
  snd (loadProjectPackages node (nth 1 args "") World0) = Thrown message →
  snd (main semver node args w) = 1%Z
  ∧ written (fst (main semver node args w)) = written w.
Proof.
  intros Hproject. unfold main. destruct (length args <? 2)%nat; [done|].
  unfold audit, bind. rewrite !print_run. rewrite loadPackageList_value.
  destruct (snd (loadPackageList node _ World0)) as [packageList|e]; [|done].
  rewrite print_run.
  match goal with
  | |- context [loadProjectPackages node ?p ?w0] =>
      destruct (loadProjectPackages_frame node p w0) as [Hw Hv];
      destruct (loadProjectPackages node p w0) as [w1 r]
  end.
  cbn [fst snd] in Hw, Hv. rewrite Hv, Hproject, print_run.
  cbn [fst snd say written] in *. by rewrite Hw.
Qed.

(** The comparator answers, whatever the package does; it writes no file,
    and it answers true only against a threshold. *)
Lemma isVersionLowerOrEqual_total installed required (w : World) :
  ∃ w' b,
    isVersionLowerOrEqual semver installed required w = (w', Ok b)
    ∧ written w' = written w
    ∧ (b = true → truthy_opt required = true).
Proof.
  destruct (truthy_opt required) eqn:Hr.
  - destruct required as [r|]; [|discriminate]. cbn [truthy_opt] in Hr.
    rewrite (isVersionLowerOrEqual_cases semver installed r w Hr).
    destruct (clean semver installed) as [ci|]; [|by eexists _, _].
    destruct (clean semver r) as [cr|]; [|by eexists _, _].
    destruct (negb (truthy_opt ci) || negb (truthy_opt cr)); [by eexists _, _|].
    destruct (lte semver _ _); by eexists _, _.
  - rewrite (isVersionLowerOrEqual_falsy semver installed required w Hr).
    by eexists _, _.
Qed.

(** What the join finds is what the read of line 236 gives, when that is
    truthy. *)
Lemma found_getProperty (projectPackages : gmap string string)
    (listPackage : WatchEntry) :
  found projectPackages listPackage
  = match getProperty projectPackages (packageName listPackage) with
    | Some installed => if truthyValue installed then Some installed else None
    | None => None
    end.
Proof.
  unfold found, getProperty.
  destruct (projectPackages !! packageName listPackage) as [installed|];
    [reflexivity|].
  destruct (decide (packageName listPackage ∈ objectPrototype)) as [Hin|Hout].
  - apply inherited_spec in Hin. by rewrite Hin.
  - destruct (inherited (packageName listPackage)) eqn:E; [|reflexivity].
    apply inherited_spec in E. contradiction.
Qed.

Lemma checkPackage_step projectPackages results listPackage (w : World) :
  ∃ w' added,
    checkPackage semver projectPackages results listPackage w
    = (w', Ok (results ++ added)%list)
    ∧ written w' = written w
    ∧ map recordKey added
      = option_list ((λ installed, (packageName listPackage, installed,
                                     version listPackage))
                     <$> found projectPackages listPackage)
    ∧ Forall (λ r, MatchRecord.isLowerOrEqual r = true →
                  truthy_opt (MatchRecord.requiredVersion r) = true) added.
Proof.
  rewrite found_getProperty. unfold checkPackage.
  destruct (getProperty projectPackages (packageName listPackage))
    as [installed|].
  2: { exists w, []. by rewrite app_nil_r. }
  destruct (truthyValue installed).
  2: { exists w, []. by rewrite app_nil_r. }
  destruct (isVersionLowerOrEqual_total installed (version listPackage) w)
    as (w1 & b & Hcmp & Hw & Hb).
  unfold bind. rewrite Hcmp, print_run. unfold ret.
  eexists _, [_]. split; [reflexivity|].
  split; [exact Hw|]. split; [reflexivity|].
  constructor; [exact Hb | constructor].
Qed.

Lemma checkPackages_steps projectPackages packageList : ∀ results (w : World),
  ∃ w' added,
    checkPackages semver projectPackages packageList results w
    = (w', Ok (results ++ added)%list)
    ∧ written w' = written w
    ∧ map recordKey added
      = omap (λ e, (λ installed, (packageName e, installed, version e))
                   <$> found projectPackages e) packageList
    ∧ Forall (λ r, MatchRecord.isLowerOrEqual r = true →
                  truthy_opt (MatchRecord.requiredVersion r) = true) added.
Proof.
  induction packageList as [|e rest IH]; intros results w.
  - exists w, []. by rewrite app_nil_r.
  - cbn [checkPackages]. unfold bind.
    destruct (checkPackage_step projectPackages results e w)
      as (w1 & first & -> & Hw1 & Hkey1 & Hflag1).
    destruct (IH (results ++ first)%list w1)
      as (w2 & more & -> & Hw2 & Hkey2 & Hflag2).
    exists w2, (first ++ more)%list. rewrite app_assoc.
    split; [reflexivity|]. split; [congruence|]. split.
    + rewrite map_app, Hkey1, Hkey2. cbn [omap list_omap].
      by destruct (found projectPackages e).
    + by apply Forall_app.
Qed.

(** The report writer, case by case: nothing to report, a write that
    succeeds, a write that throws. *)
Lemma writeResultsToCSV_run results outputPath (w : World) :
  writeResultsToCSV node results outputPath w
  = match results with
    | [] => (say w Log "検出されたパッケージがありません。", Ok tt)
    | _ =>
        let text :=
          join (String "010" "")
            ("パッケージ名,バージョン,警告" :: map csvRow results) in
        match writeFile node outputPath text with
        | Ok _ =>
            ({| console :=
                  console w
                  ++ [(Log, "結果を " +:+ outputPath +:+ " に出力しました。")];
                written := written w ++ [(outputPath, text)] |},
             Ok tt)
        | Thrown message => (w, Thrown message)
        end
    end.
Proof.
  destruct results as [|first rest]; [reflexivity|].
  unfold writeResultsToCSV, bind, writeFileSync. cbn [length Nat.eqb].
  cbn zeta. by destruct (writeFile node outputPath _).
Qed.

(** The run, once both loads have succeeded. *)
Lemma main_loaded (args : list string) (w : World) packageList projectPackages :
  (2 ≤ length args)%nat →
  snd (loadPackageList node (nth 0 args "") World0) = Ok packageList →
  snd (loadProjectPackages node (nth 1 args "") World0) = Ok projectPackages →
  ∃ results,
    map recordKey results
    = omap (λ e, (λ installed, (packageName e, installed, version e))
                 <$> found projectPackages e) packageList
    ∧ match results with
      | [] =>
          snd (main semver node args w) = 0%Z
          ∧ written (fst (main semver node args w)) = written w
      | _ =>
          let text :=
            join (String "010" "")
              ("パッケージ名,バージョン,警告" :: map csvRow results) in
          match writeFile node (outputPathOf args) text with
          | Ok _ =>
              snd (main semver node args w) = 0%Z
              ∧ written (fst (main semver node args w))
                = app (written w) [(outputPathOf args, text)]
          | Thrown message =>
              snd (main semver node args w) = 1%Z
              ∧ written (fst (main semver node args w)) = written w
              ∧ last (console (fst (main semver node args w)))
                = Some (Error, "エラー: " +:+ message)
          end
      end.
Proof.
  intros Hargs Hlist Hproject. unfold main.
  destruct (Nat.ltb_spec (length args) 2) as [|_]; [lia|].
  fold (outputPathOf args). unfold audit, bind. rewrite !print_run.
  rewrite loadPackageList_value, Hlist, print_run.
  match goal with
  | |- context [loadProjectPackages node ?p ?w0] =>
      destruct (loadProjectPackages_frame node p w0) as [Hw Hv];
      destruct (loadProjectPackages node p w0) as [w1 r]
  end.
  cbn [fst snd] in Hw, Hv. rewrite Hv, Hproject, print_run.
  match goal with
  | |- context [checkPackages semver projectPackages packageList [] ?w0] =>
      destruct (checkPackages_steps projectPackages packageList [] w0)
        as (w2 & results & -> & Hw2 & Hkey & _)
  end.
  cbn [app]. exists results. split; [exact Hkey|].
  rewrite writeResultsToCSV_run.
  cbn [say written] in Hw, Hw2.
  destruct results as [|first rest].
  - rewrite !print_run. cbn [fst snd say written].
    split; [reflexivity|]. by rewrite Hw2, Hw.
  - cbn zeta. destruct (writeFile node (outputPathOf args) _) as [u|message].
    + rewrite !print_run. cbn [fst snd say written].
      split; [reflexivity|]. by rewrite Hw2, Hw.
    + rewrite print_run. cbn [fst snd say written console].
      split; [reflexivity|]. split; [by rewrite Hw2, Hw|]. apply last_snoc.
Qed.

Lemma omap_fmap_nil {A B C : Type} (g : A → option B) (f : A → B → C)
    (l : list A) :
  omap (λ e, f e <$> g e) l = [] ↔ omap g l = [].
Proof.
  induction l as [|a l IH]; [done|]. cbn [omap list_omap].
  destruct (g a); cbn; [split; discriminate | exact IH].
Qed.

(** The run on a disk that refuses the write of the report: it fails
    exactly when there is something to report. *)
Lemma main_write_refused (args : list string) (w : World)
    packageList projectPackages :
  (2 ≤ length args)%nat →
  snd (loadPackageList node (nth 0 args "") World0) = Ok packageList →
  snd (loadProjectPackages node (nth 1 args "") World0) = Ok projectPackages →
  (∀ text, ∃ message,
     writeFile node (outputPathOf args) text = Thrown message) →
  snd (main semver node args w) = 1%Z
  ↔ omap (found projectPackages) packageList ≠ [].
Proof.
  intros Hargs Hlist Hproject Hall.
  destruct (main_loaded args w packageList projectPackages Hargs Hlist Hproject)
    as (results & Hkey & Hrun).
  destruct results as [|first rest].
  - destruct Hrun as [-> _]. split; [discriminate|]. intros Hne.
    destruct Hne. symmetry in Hkey. by apply omap_fmap_nil in Hkey.
  - cbn zeta in Hrun.
    destruct (Hall (join (String "010" "")
                      ("パッケージ名,バージョン,警告"
                       :: map csvRow (first :: rest)))) as [message Hwrite].
    rewrite Hwrite in Hrun. destruct Hrun as (-> & _).
    split; [|done]. intros _ Hnil.
    apply (omap_fmap_nil _ (λ e installed,
                              (packageName e, installed, version e))) in Hnil.
    rewrite Hnil in Hkey. discriminate Hkey.
Qed.

End MoreRun.

(** X9. A lockfile that is there but cannot be read or parsed does not stop
    the load: one warning with the reason is printed, nothing is written,
    and the answer holds under every name the range that the manifest
    declares for it, nothing under [__proto__], and nothing else. *)
Theorem loadProjectPackages_lock_failure (node : Node)
    (projectPath text message : string) (packageJson : PackageJson) :
  let packageJsonPath := path_join node projectPath "package.json" in
  let packageLockPath := path_join node projectPath "package-lock.json" in
  existsSync node packageJsonPath = true →
  readFileSync node packageJsonPath = Ok text →
  parsePackageJson node text = Ok packageJson →
  existsSync node packageLockPath = true →
  readFileSync node packageLockPath = Thrown message
  ∨ (∃ lockText, readFileSync node packageLockPath = Ok lockText
                 ∧ parsePackageLock node lockText = Thrown message) →
  ∀ w, ∃ packages,
    loadProjectPackages node projectPath w
    = ({| console :=
            console w
            ++ [(Warn, "package-lock.json の読み込みに失敗しました（package.jsonのみ使用）: "
                       +:+ message)];
          written := written w |},
       Ok packages)
    ∧ (∀ name, name ≠ "__proto__" →
               packages !! name = declared packageJson name)
    ∧ packages !! "__proto__" = None.
Proof.
  intros packageJsonPath packageLockPath He Hr Hp Hl Hfail w.
  exists (seedManifest packageJson ∅). split.
  { by eapply loadProjectPackages_lock_throws. }
  split.
  - intros name Hname. rewrite seedManifest_declared by exact Hname.
    by destruct (declared packageJson name).
  - by rewrite seedManifest_proto.
Qed.

Lemma loadProjectPackages_lock_failure_witness :
  let node := sampleNodeWith (Ok samplePackageJson) (Thrown "Unexpected end of JSON input") in
  parsePackageLock node "proj/package-lock.json" = Thrown "Unexpected end of JSON input"
  ∧ ∃ packages,
      loadProjectPackages node "proj" World0
      = ({| console :=
              [(Warn, "package-lock.json の読み込みに失敗しました（package.jsonのみ使用）: Unexpected end of JSON input")];
            written := [] |},
         Ok packages)
      ∧ packages !! "lodash" = Some "4.17.20"
      ∧ packages !! "react" = Some "18.2.0"
      ∧ packages !! "left-pad" = None.
Proof.
  intros node. split; [reflexivity|].
  destruct (loadProjectPackages_lock_failure node "proj" "proj/package.json"
              "Unexpected end of JSON input" samplePackageJson
              eq_refl eq_refl eq_refl eq_refl
              (or_intror (ex_intro _ "proj/package-lock.json" (conj eq_refl eq_refl)))
              World0)
    as (packages & Hload & Hnames & _).
  exists packages. split; [exact Hload|].
  rewrite !Hnames by discriminate. by repeat split.
Defined.

(** X10. A manifest that is there but cannot be read or parsed is fatal: the
    load throws an error that wraps the reason, before the lockfile is looked
    at, and the run ends with status 1 without writing a report. *)
Theorem loadProjectPackages_manifest_failure (node : Node)
    (projectPath message : string) :
  let packageJsonPath := path_join node projectPath "package.json" in
  existsSync node packageJsonPath = true →
  readFileSync node packageJsonPath = Thrown message
  ∨ (∃ text, readFileSync node packageJsonPath = Ok text
             ∧ parsePackageJson node text = Thrown message) →
  (∀ w, loadProjectPackages node projectPath w
        = (w, Thrown ("パッケージ情報の読み込みに失敗しました: " +:+ message)))
  ∧ (∀ semver args w,
       nth 1 args "" = projectPath →
       snd (main semver node args w) = 1%Z
       ∧ written (fst (main semver node args w)) = written w).
Proof.
  intros packageJsonPath He Hfail.
  assert (Hload : ∀ w, loadProjectPackages node projectPath w
            = (w, Thrown ("パッケージ情報の読み込みに失敗しました: " +:+ message))).
  { intros w. by apply loadProjectPackages_manifest_throws. }
  split; [exact Hload|].
  intros semver args w <-. eapply main_project_failure. by rewrite Hload.
Qed.

Lemma loadProjectPackages_manifest_failure_witness :
  let node := sampleNodeWith (Thrown "Unexpected token") (Ok samplePackageLock) in
  existsSync node "proj/package.json" = true
  ∧ parsePackageJson node "proj/package.json" = Thrown "Unexpected token"
  ∧ loadProjectPackages node "proj" World0
    = (World0, Thrown "パッケージ情報の読み込みに失敗しました: Unexpected token").
Proof.
  intros node. split; [reflexivity|]. split; [reflexivity|].
  exact (proj1 (loadProjectPackages_manifest_failure node "proj" "Unexpected token"
                  eq_refl
                  (or_intror (ex_intro _ "proj/package.json" (conj eq_refl eq_refl))))
           World0).
Defined.

Section Precedence.

Lemma Object_assign_over (packages : gmap string string)
    (first second : list (string * string)) :
  Object_assign packages (first ++ second)
  = Object_assign ∅ second ∪ Object_assign packages first.
Proof. by rewrite Object_assign_app, Object_assign_union. Qed.

Lemma seedManifest_union (packageJson : PackageJson)
    (packages : gmap string string) :
  seedManifest packageJson packages
  = category packageJson "peerDependencies"
    ∪ (category packageJson "devDependencies"
       ∪ (category packageJson "dependencies" ∪ packages)).
Proof.
  unfold seedManifest, depTypes, category. cbn [fold_left].
  destruct (depsOf packageJson "dependencies") as [deps|],
           (depsOf packageJson "devDependencies") as [dev|],
           (depsOf packageJson "peerDependencies") as [peer|];
    cbn [from_option id Object_assign fold_left];
    rewrite ?(left_id_L ∅ (∪));
    repeat (rewrite (Object_assign_union (Object_assign _ _))
            || rewrite (Object_assign_union (_ ∪ _)));
    rewrite ?(Object_assign_union packages); reflexivity.
Qed.

Lemma readLock_union (packageLock : PackageLock)
    (packages : gmap string string) :
  readLock packageLock packages
  = flatTable packageLock ∪ (nestedTree packageLock ∪ packages).
Proof.
  rewrite readLock_entries. unfold lockEntries, flatTable, nestedTree.
  rewrite Object_assign_over, (Object_assign_union packages).
  by destruct (lock_dependencies packageLock), (lock_packages packageLock).
Qed.

End Precedence.

(** X11. Within the manifest, [peerDependencies] are written over
    [devDependencies], and these over [dependencies]: a name other than
    [__proto__] is read with the range of the last category that declares
    it, and within a category with its last declaration.  A range is stored
    as it is written, operators included. *)
Theorem seedManifest_precedence (packageJson : PackageJson)
    (packages : gmap string string) :
  seedManifest packageJson packages
  = category packageJson "peerDependencies"
    ∪ (category packageJson "devDependencies"
       ∪ (category packageJson "dependencies" ∪ packages))
  ∧ (∀ name range,
       category packageJson "peerDependencies" !! name = Some range →
       seedManifest packageJson packages !! name = Some range)
  ∧ (∀ name range,
       category packageJson "peerDependencies" !! name = None →
       category packageJson "devDependencies" !! name = Some range →
       seedManifest packageJson packages !! name = Some range)
  ∧ (∀ depType name range before after,
       depsOf packageJson depType = Some (before ++ (name, range) :: after)%list →
       name ≠ "__proto__" →
       name ∉ after.*1 →
       category packageJson depType !! name = Some range)
  ∧ (∀ name,
       name ≠ "__proto__" →
       seedManifest packageJson packages !! name
       = match declared packageJson name with
         | Some range => Some range
         | None => packages !! name
         end).
Proof.
  repeat apply conj.
  - apply seedManifest_union.
  - intros name range H. rewrite seedManifest_union.
    by apply lookup_union_Some_l.
  - intros name range Hpeer Hdev. rewrite seedManifest_union.
    rewrite lookup_union_r by exact Hpeer. by apply lookup_union_Some_l.
  - intros depType name range before after Hdeps Hname Hlast.
    unfold category. rewrite Hdeps. cbn [from_option id].
    by apply Object_assign_last.
  - intros name Hname. by apply seedManifest_declared.
Qed.

Lemma seedManifest_precedence_witness :
  let packageJson :=
    {| depsOf := λ depType,
         if String.eqb depType "dependencies" then Some [("react", "^17.0.0")]
         else if String.eqb depType "peerDependencies"
              then Some [("react", ">=18.0.0")]
              else None |} in
  category packageJson "peerDependencies" !! "react" = Some ">=18.0.0"
  ∧ seedManifest packageJson ∅ !! "react" = Some ">=18.0.0".
Proof.
  intros packageJson.
  assert (H : category packageJson "peerDependencies" !! "react"
              = Some ">=18.0.0") by reflexivity.
  split; [exact H|].
  exact (proj1 (proj2 (seedManifest_precedence packageJson ∅))
           "react" ">=18.0.0" H).
Defined.

(** X12. Within the lockfile, the flat [packages] table is written over the
    nested [dependencies] tree: a name that both record is read with the
    version of the flat table. *)
Theorem readLock_precedence (packageLock : PackageLock)
    (packages : gmap string string) :
  readLock packageLock packages
  = flatTable packageLock ∪ (nestedTree packageLock ∪ packages)
  ∧ (∀ name ver,
       flatTable packageLock !! name = Some ver →
       readLock packageLock packages !! name = Some ver)
  ∧ (∀ name ver,
       flatTable packageLock !! name = None →
       nestedTree packageLock !! name = Some ver →
       readLock packageLock packages !! name = Some ver).
Proof.
  repeat apply conj.
  - apply readLock_union.
  - intros name ver H. rewrite readLock_union. by apply lookup_union_Some_l.
  - intros name ver Hflat Htree. rewrite readLock_union.
    rewrite lookup_union_r by exact Hflat. by apply lookup_union_Some_l.
Qed.

Lemma readLock_precedence_witness :
  let packageLock :=
    {| lock_dependencies := Some [("lodash", mkDepInfo (Some "3.10.1") None)];
       lock_packages :=
         Some [("node_modules/lodash", mkPackageInfo (Some "4.17.21"))] |} in
  flatTable packageLock !! "lodash" = Some "4.17.21"
  ∧ nestedTree packageLock !! "lodash" = Some "3.10.1"
  ∧ readLock packageLock ∅ !! "lodash" = Some "4.17.21".
Proof.
  intros packageLock.
  assert (H : flatTable packageLock !! "lodash" = Some "4.17.21") by reflexivity.
  split; [exact H|]. split; [reflexivity|].
  exact (proj1 (proj2 (readLock_precedence packageLock ∅)) "lodash" "4.17.21" H).
Defined.

(** ** More on the report and the run *)

Section MoreReport.

Lemma csvRow_one_line (result : MatchRecord.t) :
  occurs "010" (MatchRecord.packageName result) = false →
  occurs "010" (toText (MatchRecord.version result)) = false →
  occurs "010" (csvRow result) = false.
Proof.
  intros Hname Hver. unfold csvRow. rewrite !occurs_append, Hname, Hver.
  by destruct (MatchRecord.isLowerOrEqual result).
Qed.

End MoreReport.

(** X14. With at least one match record the writer writes one file, at the
    output path: the header and one row per record, in the order of the
    records, joined by line feeds; when the write succeeds it prints one
    informational line, and when the write throws, the error goes on to the
    caller, nothing is printed and there is no file.  When no name and no
    version holds a line feed, splitting the text at the line feeds gives
    the header and the rows back, so the file has one line more than there
    are records. *)
Theorem writeResultsToCSV_report (node : Node) (results : list MatchRecord.t)
    (outputPath : string) (w : World) :
  results ≠ [] →
  let lines := "パッケージ名,バージョン,警告" :: map csvRow results in
  let text := join (String "010" "") lines in
  (writeFile node outputPath text = Ok tt →
   writeResultsToCSV node results outputPath w
   = ({| console :=
           console w ++ [(Log, "結果を " +:+ outputPath +:+ " に出力しました。")];
         written := written w ++ [(outputPath, text)] |},
      Ok tt))
  ∧ (∀ message,
       writeFile node outputPath text = Thrown message →
       writeResultsToCSV node results outputPath w = (w, Thrown message))
  ∧ (Forall (λ r, occurs "010" (MatchRecord.packageName r) = false
                  ∧ occurs "010" (toText (MatchRecord.version r)) = false)
            results →
     split "010" text = lines
     ∧ length (split "010" text) = S (length results)).
Proof.
  intros Hne lines text. repeat apply conj.
  - intros Hwrite. rewrite writeResultsToCSV_run.
    destruct results; [done|]. cbn zeta. fold lines. fold text.
    by rewrite Hwrite.
  - intros message Hwrite. rewrite writeResultsToCSV_run.
    destruct results; [done|]. cbn zeta. fold lines. fold text.
    by rewrite Hwrite.
  - intros Hfields.
    assert (Hsplit : split "010" text = lines).
    { apply split_join; [discriminate|]. constructor; [reflexivity|].
      apply Forall_map. eapply Forall_impl; [exact Hfields|].
      intros r [Hname Hver]. by apply csvRow_one_line. }
    split; [exact Hsplit|]. rewrite Hsplit. unfold lines. cbn [length].
    by rewrite length_map.
Qed.

Lemma writeResultsToCSV_report_witness :
  let results :=
    [MatchRecord.mk "lodash" "4.17.20" (Some "4.17.21") true;
     MatchRecord.mk "toString" (VMember "toString") None false] in
  let text :=
    join (String "010" "")
      ["パッケージ名,バージョン,警告"; "lodash,4.17.20,×";
       "toString,function toString() { [native code] },"] in
  results ≠ []
  ∧ writeFile (sampleNode "react" true false) "out.csv" text = Ok tt
  ∧ writeResultsToCSV (sampleNode "react" true false) results "out.csv" World0
    = ({| console := [(Log, "結果を out.csv に出力しました。")];
          written := [("out.csv", text)] |}, Ok tt)
  ∧ writeFile (sampleNodeReadOnly "react") "out.csv" text
    = Thrown "EACCES: permission denied, open 'out.csv'"
  ∧ writeResultsToCSV (sampleNodeReadOnly "react") results "out.csv" World0
    = (World0, Thrown "EACCES: permission denied, open 'out.csv'").
Proof.
  intros results text.
  assert (Hne : results ≠ []) by discriminate.
  split; [exact Hne|]. split; [reflexivity|]. split.
  { exact (proj1 (writeResultsToCSV_report (sampleNode "react" true false)
                    results "out.csv" World0 Hne) eq_refl). }
  split; [reflexivity|].
  exact (proj1 (proj2 (writeResultsToCSV_report (sampleNodeReadOnly "react")
                         results "out.csv" World0 Hne))
           "EACCES: permission denied, open 'out.csv'" eq_refl).
Defined.

(** X17. The join goes through the watch-list in its order and keeps, for
    every entry whose name reads as a truthy value, one match record with
    that name, that value as installed version and the requested version of
    the entry; the value is the text stored under the name or, without a
    stored text, the member of [Object.prototype] of that name.  A name that
    occurs twice in the watch-list is kept twice.  This holds whatever the
    semver package does: a comparison that fails drops no record.  No record
    is flagged unless its entry has a threshold, and the join writes no
    file. *)
Theorem checkPackages_in_order (semver : SemverLib)
    (projectPackages : gmap string string) (packageList : list WatchEntry)
    (w : World) :
  (∃ w' results,
     checkPackages semver projectPackages packageList [] w = (w', Ok results)
     ∧ map recordKey results
       = omap (λ e, (λ installed, (packageName e, installed, version e))
                    <$> found projectPackages e) packageList
     ∧ Forall (λ r, MatchRecord.isLowerOrEqual r = true →
                   truthy_opt (MatchRecord.requiredVersion r) = true) results
     ∧ written w' = written w)
  ∧ (∃ w',
       checkPackages semver {["lodash" := "4.17.20"; "debug" := ""]}
         [mkWatchEntry "lodash" None; mkWatchEntry "toString" None;
          mkWatchEntry "debug" None; mkWatchEntry "left-pad" None;
          mkWatchEntry "lodash" None] [] w
       = (w', Ok [MatchRecord.mk "lodash" "4.17.20" None false;
                  MatchRecord.mk "toString" (VMember "toString") None false;
                  MatchRecord.mk "lodash" "4.17.20" None false])).
Proof.
  split.
  - destruct (checkPackages_steps semver projectPackages packageList [] w)
      as (w' & results & Hrun & Hw & Hkey & Hflag).
    exists w', results. by repeat split.
  - eexists. reflexivity.
Qed.

(** X15. The run writes at most one file, and only at the output path: the
    third argument when it is there and not empty, [result.csv] otherwise. *)
Theorem main_writes_report_only (semver : SemverLib) (node : Node)
    (args : list string) (w : World) :
  (written (fst (main semver node args w)) = written w
   ∨ ∃ text, written (fst (main semver node args w))
             = app (written w) [(outputPathOf args, text)])
  ∧ (∀ path, args !! 2%nat = Some path → path ≠ "" → outputPathOf args = path)
  ∧ (args !! 2%nat = None ∨ args !! 2%nat = Some "" →
     outputPathOf args = "result.csv").
Proof.
  repeat apply conj.
  - destruct (Nat.ltb_spec (length args) 2) as [Hfew|Hargs].
    { left. unfold main. apply Nat.ltb_lt in Hfew. by rewrite Hfew. }
    destruct (snd (loadPackageList node (nth 0 args "") World0))
      as [packageList|e] eqn:Hlist.
    2: { left. by rewrite (main_list_failure node semver args e w Hargs Hlist). }
    destruct (snd (loadProjectPackages node (nth 1 args "") World0))
      as [projectPackages|e] eqn:Hproject.
    2: { left. by eapply main_project_failure. }
    destruct (main_loaded semver node args w _ _ Hargs Hlist Hproject)
      as (results & _ & Hrun).
    destruct results; [left; apply Hrun|]. cbn zeta in Hrun.
    destruct (writeFile node (outputPathOf args) _);
      [right; eexists; apply Hrun | left; apply Hrun].
  - intros path Hpath Hne. unfold outputPathOf. rewrite Hpath.
    by destruct path.
  - intros [H|H]; unfold outputPathOf; by rewrite H.
Qed.

Lemma main_writes_report_only_witness :
  let args := ["packages.txt"; "proj"; "audit.csv"] in
  args !! 2%nat = Some "audit.csv"
  ∧ "audit.csv" ≠ ""
  ∧ outputPathOf args = "audit.csv".
Proof.
  intros args. split; [reflexivity|]. split; [discriminate|].
  exact (proj1 (proj2 (main_writes_report_only
                         (Semver.package is_range_operator)
                         (sampleNode "react" true true) args World0))
           "audit.csv" eq_refl ltac:(discriminate)).
Defined.

(** X16. The run ends with status 0 or 1.  It ends with 0 only when it has
    its two arguments and both the watch-list and the project load; with
    these, it ends with 0 unless the write of the report throws, and it
    ends with 0 whenever no write at the output path throws; when every
    write at the output path throws, it ends with 1 exactly when some entry
    of the watch-list is found.  Nothing that happens in a comparison
    changes the status.  A run that ends with 1 has written nothing. *)
Theorem main_status (semver : SemverLib) (node : Node)
    (args : list string) (w : World) :
  let loaded :=
    (2 ≤ length args)%nat
    ∧ (∃ packageList,
         snd (loadPackageList node (nth 0 args "") World0) = Ok packageList)
    ∧ (∃ projectPackages,
         snd (loadProjectPackages node (nth 1 args "") World0)
         = Ok projectPackages) in
  (snd (main semver node args w) = 0%Z ∨ snd (main semver node args w) = 1%Z)
  ∧ (snd (main semver node args w) = 0%Z → loaded)
  ∧ (loaded →
     snd (main semver node args w) = 0%Z
     ∨ ∃ text message,
         writeFile node (outputPathOf args) text = Thrown message)
  ∧ (loaded →
     (∀ text, ∃ done, writeFile node (outputPathOf args) text = Ok done) →
     snd (main semver node args w) = 0%Z)
  ∧ (∀ packageList projectPackages,
       (2 ≤ length args)%nat →
       snd (loadPackageList node (nth 0 args "") World0) = Ok packageList →
       snd (loadProjectPackages node (nth 1 args "") World0)
       = Ok projectPackages →
       (∀ text, ∃ message,
          writeFile node (outputPathOf args) text = Thrown message) →
       snd (main semver node args w) = 1%Z
       ↔ omap (found projectPackages) packageList ≠ [])
  ∧ (snd (main semver node args w) = 1%Z →
     written (fst (main semver node args w)) = written w).
Proof.
  intros loaded.
  assert (Hcases :
            (snd (main semver node args w) = 1%Z
             ∧ written (fst (main semver node args w)) = written w
             ∧ ¬ loaded)
            ∨ (loaded ∧ snd (main semver node args w) = 0%Z)
            ∨ (loaded
               ∧ snd (main semver node args w) = 1%Z
               ∧ written (fst (main semver node args w)) = written w
               ∧ ∃ text message,
                   writeFile node (outputPathOf args) text = Thrown message)).
  { subst loaded.
    destruct (Nat.ltb_spec (length args) 2) as [Hfew|Hargs].
    { left. unfold main. pose proof Hfew as Hlt. apply Nat.ltb_lt in Hlt.
      rewrite Hlt. cbn [snd fst]. repeat split. intros (Hargs & _). lia. }
    destruct (snd (loadPackageList node (nth 0 args "") World0))
      as [packageList|e] eqn:Hlist.
    2: { left. rewrite (main_list_failure node semver args e w Hargs Hlist).
         cbn [snd fst]. repeat split. intros (_ & [l Hl] & _). discriminate. }
    destruct (snd (loadProjectPackages node (nth 1 args "") World0))
      as [projectPackages|e] eqn:Hproject.
    2: { left.
         destruct (main_project_failure semver node args e w Hproject) as [Hs Hw].
         repeat split; [exact Hs | exact Hw|].
         intros (_ & _ & [p Hp]). discriminate. }
    right.
    assert (Hloaded : (2 ≤ length args)%nat
                      ∧ (∃ l : list WatchEntry, Ok packageList = Ok l)
                      ∧ (∃ p : gmap string string, Ok projectPackages = Ok p))
      by eauto.
    destruct (main_loaded semver node args w _ _ Hargs Hlist Hproject)
      as (results & _ & Hrun).
    destruct results as [|first rest]; [left; split; [exact Hloaded | apply Hrun]|].
    cbn zeta in Hrun.
    destruct (writeFile node (outputPathOf args) _) as [u|message] eqn:Hwrite.
    - left. split; [exact Hloaded | apply Hrun].
    - right. destruct Hrun as (Hs & Hw & _). repeat split; eauto. }
  repeat apply conj.
  - destruct Hcases as [(H & _)|[(_ & H)|(_ & H & _)]]; auto.
  - intros H0.
    destruct Hcases as [(H & _)|[(H & _)|(_ & H & _)]]; [congruence | exact H | congruence].
  - intros Hl.
    destruct Hcases as [(_ & _ & H)|[(_ & H)|(_ & _ & _ & H)]];
      [contradiction | by left | by right].
  - intros Hl Hall.
    destruct Hcases as [(_ & _ & H)|[(_ & H)|(_ & _ & _ & text & message & H)]];
      [contradiction | exact H|].
    destruct (Hall text) as [u Hu]. congruence.
  - intros packageList projectPackages Hargs Hlist Hproject Hall.
    by apply main_write_refused.
  - intros H1.
    destruct Hcases as [(_ & H & _)|[(_ & H)|(_ & _ & H & _)]];
      [exact H | congruence | exact H].
Qed.

Lemma main_status_witness :
  let semver := Semver.package is_range_operator in
  let node := sampleNodeReadOnly "react" in
  snd (loadPackageList node "packages.txt" World0) = Ok [mkWatchEntry "react" None]
  ∧ (∃ projectPackages,
       snd (loadProjectPackages node "proj" World0) = Ok projectPackages)
  ∧ snd (main semver node ["packages.txt"; "proj"] World0) = 1%Z
  ∧ written (fst (main semver node ["packages.txt"; "proj"] World0)) = []
  ∧ snd (main semver (sampleNodeReadOnly "left-pad") ["packages.txt"; "proj"]
           World0) = 0%Z.
Proof.
  intros semver node.
  assert (H : snd (main semver node ["packages.txt"; "proj"] World0) = 1%Z)
    by reflexivity.
  split; [reflexivity|]. split; [eexists; reflexivity|].
  split; [exact H|]. split; [|reflexivity].
  exact (proj2 (proj2 (proj2 (proj2 (proj2
           (main_status semver node ["packages.txt"; "proj"] World0))))) H).
Defined.

(** X19. A run whose two loads succeed attempts a report exactly when some
    entry of the watch-list names a package that reads as a truthy value,
    a stored text or a member of [Object.prototype].  The report then is
    the header and one row for each such entry, in the order of the
    watch-list; when its write succeeds it is the one file written and the
    run ends with status 0, when its write throws nothing is written, the
    error is printed last and the run ends with status 1.  Without such an
    entry no file is written and the run ends with status 0. *)
Theorem main_report (semver : SemverLib) (node : Node) (args : list string)
    (w : World) (packageList : list WatchEntry)
    (projectPackages : gmap string string) :
  (2 ≤ length args)%nat →
  snd (loadPackageList node (nth 0 args "") World0) = Ok packageList →
  snd (loadProjectPackages node (nth 1 args "") World0) = Ok projectPackages →
  let matches :=
    omap (λ e, (λ installed, (packageName e, installed, version e))
               <$> found projectPackages e) packageList in
  (matches = [] →
   snd (main semver node args w) = 0%Z
   ∧ written (fst (main semver node args w)) = written w)
  ∧ (matches ≠ [] →
     ∃ results,
       map recordKey results = matches
       ∧ let text :=
           join (String "010" "")
             ("パッケージ名,バージョン,警告" :: map csvRow results) in
         (writeFile node (outputPathOf args) text = Ok tt →
          snd (main semver node args w) = 0%Z
          ∧ written (fst (main semver node args w))
            = app (written w) [(outputPathOf args, text)])
         ∧ (∀ message,
              writeFile node (outputPathOf args) text = Thrown message →
              snd (main semver node args w) = 1%Z
              ∧ written (fst (main semver node args w)) = written w
              ∧ last (console (fst (main semver node args w)))
                = Some (Error, "エラー: " +:+ message))).
Proof.
  intros Hargs Hlist Hproject matches.
  destruct (main_loaded semver node args w packageList projectPackages
              Hargs Hlist Hproject) as (results & Hkey & Hrun).
  fold matches in Hkey. split; intros Hm.
  - rewrite Hm in Hkey. by destruct results.
  - exists results. split; [exact Hkey|].
    destruct results as [|first rest]; [cbn in Hkey; congruence|].
    cbn zeta in *. split.
    + intros Hwrite. by rewrite Hwrite in Hrun.
    + intros message Hwrite. by rewrite Hwrite in Hrun.
Qed.

Lemma main_report_witness :
  let watchList :=
    "lodash@4.17.21" +:+ String "010" "left-pad" +:+ String "010" "constructor" in
  let semver := Semver.package is_range_operator in
  let args := ["packages.txt"; "proj"] in
  let text :=
    join (String "010" "")
      ["パッケージ名,バージョン,警告"; "lodash,4.17.20,×";
       "constructor,function Object() { [native code] },"] in
  snd (main semver (sampleNode watchList true false) args World0) = 0%Z
  ∧ written (fst (main semver (sampleNode watchList true false) args World0))
    = [("result.csv", text)]
  ∧ snd (main semver (sampleNodeReadOnly watchList) args World0) = 1%Z
  ∧ written (fst (main semver (sampleNodeReadOnly watchList) args World0)) = []
  ∧ last (console (fst (main semver (sampleNodeReadOnly watchList) args World0)))
    = Some (Error, "エラー: EACCES: permission denied, open 'result.csv'").
Proof.
  intros watchList semver args text.
  assert (Hargs : (2 ≤ length args)%nat) by (cbn; lia).
  pose (packageList := [mkWatchEntry "lodash" (Some "4.17.21");
                        mkWatchEntry "left-pad" None;
                        mkWatchEntry "constructor" None]).
  pose (projectPackages :=
          Object_assign ∅ [("lodash", "4.17.20"); ("react", "18.2.0")]).
  assert (Hmatches :
            omap (λ e, (λ installed, (packageName e, installed, version e))
                       <$> found projectPackages e) packageList
            = [("lodash", VString "4.17.20", Some "4.17.21");
               ("constructor", VMember "constructor", None)]) by reflexivity.
  assert (Hgood : snd (main semver (sampleNode watchList true false) args World0)
                  = 0%Z
                  ∧ written (fst (main semver (sampleNode watchList true false)
                                    args World0))
                    = [("result.csv", text)]) by (split; reflexivity).
  split; [apply Hgood|]. split; [apply Hgood|].
  destruct (proj2 (main_report semver (sampleNodeReadOnly watchList) args World0
                     packageList projectPackages Hargs eq_refl eq_refl))
    as (results & Hkey & _ & Hfail).
  { rewrite Hmatches. discriminate. }
  exact (Hfail "EACCES: permission denied, open 'result.csv'" eq_refl).
Defined.

Section LoadAnswers.

Variable node : Node.
Variable projectPath : string.

(** Every answer of a load that does not throw. *)
Lemma loadProjectPackages_Ok (w w' : World) (packages : gmap string string) :
  loadProjectPackages node projectPath w = (w', Ok packages) →
  ∃ text packageJson,
    readFileSync node (path_join node projectPath "package.json") = Ok text
    ∧ parsePackageJson node text = Ok packageJson
    ∧ (packages = seedManifest packageJson ∅
       ∨ ∃ lockText packageLock,
           readFileSync node (path_join node projectPath "package-lock.json")
           = Ok lockText
           ∧ parsePackageLock node lockText = Ok packageLock
           ∧ packages = readLock packageLock (seedManifest packageJson ∅)).
Proof.
  unfold loadProjectPackages, tryCatch, bind, lift, throw, ret, print.
  destruct (existsSync node (path_join node projectPath "package.json"));
    cbn [negb]; [|discriminate].
  destruct (readFileSync node (path_join node projectPath "package.json"))
    as [text|] eqn:Hr; [|discriminate].
  destruct (parsePackageJson node text) as [packageJson|] eqn:Hp; [|discriminate].
  intros H. exists text, packageJson. split; [reflexivity|]. split; [exact Hp|].
  destruct (existsSync node (path_join node projectPath "package-lock.json")).
  - destruct (readFileSync node (path_join node projectPath "package-lock.json"))
      as [lockText|] eqn:Hlr.
    + destruct (parsePackageLock node lockText) as [packageLock|] eqn:Hlp;
        injection H as _ <-; [right; by exists lockText, packageLock | by left].
    + injection H as _ <-. by left.
  - injection H as _ <-. by left.
Qed.

End LoadAnswers.

(** X18. Whatever the lockfile holds, and also when it is missing or
    broken, every name other than [__proto__] that the manifest declares is
    a name of the map that a load gives; such a name keeps the range that
    the manifest declares unless the lockfile that was read has a record for
    it.  Nothing is stored under [__proto__], and a load writes no file. *)
Theorem loadProjectPackages_keeps_manifest (node : Node) (projectPath : string)
    (w w' : World) (packages : gmap string string) :
  loadProjectPackages node projectPath w = (w', Ok packages) →
  ∃ text packageJson,
    readFileSync node (path_join node projectPath "package.json") = Ok text
    ∧ parsePackageJson node text = Ok packageJson
    ∧ (∀ name range,
         declared packageJson name = Some range →
         name ≠ "__proto__" →
         is_Some (packages !! name))
    ∧ (∀ name,
         name ≠ "__proto__" →
         packages !! name = declared packageJson name
         ∨ ∃ lockText packageLock,
             readFileSync node (path_join node projectPath "package-lock.json")
             = Ok lockText
             ∧ parsePackageLock node lockText = Ok packageLock
             ∧ name ∈ (lockEntries packageLock).*1)
    ∧ packages !! "__proto__" = None
    ∧ written w' = written w.
Proof.
  intros Hload.
  destruct (loadProjectPackages_Ok node projectPath w w' packages Hload)
    as (text & packageJson & Hr & Hp & Hanswer).
  exists text, packageJson. split; [exact Hr|]. split; [exact Hp|].
  assert (Hseed : ∀ name, name ≠ "__proto__" →
            seedManifest packageJson ∅ !! name = declared packageJson name).
  { intros name Hname. rewrite seedManifest_declared by exact Hname.
    by destruct (declared packageJson name). }
  repeat apply conj.
  - intros name range Hdeclared Hname. apply elem_of_dom.
    assert (Hin : name ∈ dom (seedManifest packageJson ∅)).
    { apply elem_of_dom. rewrite Hseed by exact Hname. by rewrite Hdeclared. }
    destruct Hanswer as [->|(lockText & packageLock & _ & _ & ->)];
      [exact Hin|].
    rewrite readLock_entries. apply Object_assign_dom. by left.
  - intros name Hname.
    destruct Hanswer as [->|(lockText & packageLock & Hlr & Hlp & ->)].
    + left. by apply Hseed.
    + destruct (decide (name ∈ (lockEntries packageLock).*1)) as [Hin|Hout].
      * right. by exists lockText, packageLock.
      * left. rewrite readLock_entries, Object_assign_absent by exact Hout.
        by apply Hseed.
  - destruct Hanswer as [->|(lockText & packageLock & _ & _ & ->)];
      rewrite ?readLock_entries, ?Object_assign_proto, seedManifest_proto;
      apply lookup_empty.
  - pose proof (proj1 (loadProjectPackages_frame node projectPath w)) as Hw.
    by rewrite Hload in Hw.
Qed.

Lemma loadProjectPackages_keeps_manifest_witness :
  let node := sampleNode "react" true true in
  ∃ w' packages,
    loadProjectPackages node "proj" World0 = (w', Ok packages)
    ∧ declared samplePackageJson "react" = Some "18.2.0"
    ∧ is_Some (packages !! "react")
    ∧ packages !! "react" = Some "18.2.0"
    ∧ packages !! "lodash" = Some "4.17.21".
Proof.
  intros node.
  pose (packages := readLock samplePackageLock (seedManifest samplePackageJson ∅)).
  assert (Hload : loadProjectPackages node "proj" World0
            = (say World0 Log "package-lock.json からも依存関係を読み込みました",
               Ok packages)) by reflexivity.
  exists (say World0 Log "package-lock.json からも依存関係を読み込みました"), packages.
  split; [exact Hload|]. split; [reflexivity|]. split; [|split; reflexivity].
  destruct (loadProjectPackages_keeps_manifest node "proj" World0 _ packages Hload)
    as (text & packageJson & _ & Hp & Hnames & _).
  injection Hp as <-. apply (Hnames "react" "18.2.0"); [reflexivity | discriminate].
Defined.
